(** * Voice-Dataset-Collector: ingestion pipeline (app.py) and
      materialization pass (casting.py), embedded and verified.

    Python [str] values are sequences of Unicode code points ([list N]);
    [bytes] values are sequences of octets ([list N], each below 256).
    Collaborators the program only calls (the Hub client, the audio codec,
    [uuid.uuid4], [datetime.utcnow], [load_dataset]) are Section
    variables: every theorem holds for all of their behaviours.  Calls
    whose exceptions the program handles (uploads, downloads, copies,
    pushes, the load of the dataset) may raise as a fault oracle says, and
    so may the read of the audio file, which the program does not handle;
    a push also fails when a file that it has to read is not on disk.
    The encoder, the directory operations and the clock are total.  An
    except clause catches the instances of its class and of the classes
    derived from it.  The datasets library is taken as it is: a
    DatasetDict has no attribute features, its copy() is a plain dict, and
    a record read from a split is a dict of its own.  Effects are threaded
    explicitly through a state-and-exception monad, and the world records
    what the process did as a trace of events.  Paths follow
    posixpath. *)

From Stdlib Require Import NArith String Ascii DecimalString.
From stdpp Require Import gmap list fin_maps.

Set Warnings "-clear-no-such-hyp".

Open Scope N_scope.
Open Scope list_scope.

(** ** Python values *)

Module Py.

Abbreviation str := (list N).
Abbreviation bytes := (list N).

(* A string literal of the source, as code points. *)
Fixpoint lit (s : string) : str :=
  match s with
  | EmptyString => []
  | String a s' => N_of_ascii a :: lit s'
  end.

(* str(n) for a non-negative int. *)
Definition str_of_nat (n : nat) : str :=
  lit (NilZero.string_of_uint (Nat.to_uint n)).

#[global] Arguments lit : simpl never.
#[global] Arguments str_of_nat : simpl never.

(* Instances of [Exception]: the class name and the message. *)
Record exn := Exn { exn_class : string; exn_msg : str }.

(* The proper ancestors, below Exception, of the exception classes that an
   except clause of the program names or catches: huggingface_hub.errors
   has class RepositoryNotFoundError(HfHubHTTPError) and
   class GatedRepoError(RepositoryNotFoundError). *)
Definition ancestors (cls : string) : list string :=
  if String.eqb cls "GatedRepoError" then ["RepositoryNotFoundError"; "HfHubHTTPError"]%string
  else if String.eqb cls "RepositoryNotFoundError" then ["HfHubHTTPError"]%string
  else [].

(* isinstance(e, cls): what an except clause tests *)
Definition isinstance (e : exn) (cls : string) : bool :=
  String.eqb (exn_class e) cls || existsb (String.eqb cls) (ancestors (exn_class e)).

(* except RepositoryNotFoundError *)
Definition is_RepositoryNotFoundError (e : exn) : bool :=
  isinstance e "RepositoryNotFoundError".

(* Unicode whitespace, as CPython's _PyUnicode_IsWhitespace. *)
Definition isspace (c : N) : bool :=
  ((0x09 <=? c) && (c <=? 0x0D)) || ((0x1C <=? c) && (c <=? 0x20))
  || (c =? 0x85) || (c =? 0xA0) || (c =? 0x1680)
  || ((0x2000 <=? c) && (c <=? 0x200A))
  || (c =? 0x2028) || (c =? 0x2029) || (c =? 0x202F) || (c =? 0x205F)
  || (c =? 0x3000).

Fixpoint lstrip (s : str) : str :=
  match s with
  | [] => []
  | c :: s' => if isspace c then lstrip s' else s
  end.

(* s.strip() *)
Definition strip (s : str) : str := rev (lstrip (rev (lstrip s))).

(* bool(s) for a str: the empty string is falsy. *)
Definition truthy (s : str) : bool :=
  match s with [] => false | _ :: _ => true end.

(* sep.join(parts) *)
Fixpoint join (sep : str) (parts : list str) : str :=
  match parts with
  | [] => []
  | [p] => p
  | p :: ps => p ++ sep ++ join sep ps
  end.

(* s.encode("utf-8"): lone surrogates raise UnicodeEncodeError. *)
Definition utf8_char (c : N) : option bytes :=
  if c <? 0x80 then Some [c]
  else if c <? 0x800 then Some [0xC0 + c / 64; 0x80 + c mod 64]
  else if (0xD800 <=? c) && (c <=? 0xDFFF) then None
  else if c <? 0x10000 then
    Some [0xE0 + c / 4096; 0x80 + (c / 64) mod 64; 0x80 + c mod 64]
  else if c <? 0x110000 then
    Some [0xF0 + c / 262144; 0x80 + (c / 4096) mod 64;
          0x80 + (c / 64) mod 64; 0x80 + c mod 64]
  else None.

Fixpoint utf8_encode (s : str) : option bytes :=
  match s with
  | [] => Some []
  | c :: s' =>
      match utf8_char c, utf8_encode s' with
      | Some b, Some bs => Some (b ++ bs)
      | _, _ => None
      end
  end.

(* Unicode scalar values: what a str holds unless it carries lone
   surrogates. *)
Definition is_scalar (c : N) : bool :=
  (c <? 0xD800) || ((0xDFFF <? c) && (c <? 0x110000)).

Definition text (s : str) : Prop := Forall (fun c => is_scalar c = true) s.

(* bytes.decode("utf-8"), strict: overlong forms, surrogates and values
   past U+10FFFF are rejected. *)
Definition is_cont (b : N) : bool := (0x80 <=? b) && (b <? 0xC0).

Fixpoint utf8_decode_fuel (fuel : nat) (bs : bytes) : option str :=
  match fuel with
  | O => match bs with [] => Some [] | _ => None end
  | S fuel' =>
      match bs with
      | [] => Some []
      | b0 :: r0 =>
          if b0 <? 0x80 then cons b0 <$> utf8_decode_fuel fuel' r0
          else if b0 <? 0xC0 then None
          else if b0 <? 0xE0 then
            match r0 with
            | b1 :: r1 =>
                let c := (b0 - 0xC0) * 64 + (b1 - 0x80) in
                if is_cont b1 && (0x80 <=? c)
                then cons c <$> utf8_decode_fuel fuel' r1 else None
            | _ => None
            end
          else if b0 <? 0xF0 then
            match r0 with
            | b1 :: b2 :: r2 =>
                let c := (b0 - 0xE0) * 4096 + (b1 - 0x80) * 64 + (b2 - 0x80) in
                if is_cont b1 && is_cont b2 && (0x800 <=? c)
                   && negb ((0xD800 <=? c) && (c <=? 0xDFFF))
                then cons c <$> utf8_decode_fuel fuel' r2 else None
            | _ => None
            end
          else if b0 <? 0xF8 then
            match r0 with
            | b1 :: b2 :: b3 :: r3 =>
                let c := (b0 - 0xF0) * 262144 + (b1 - 0x80) * 4096
                         + (b2 - 0x80) * 64 + (b3 - 0x80) in
                if is_cont b1 && is_cont b2 && is_cont b3
                   && (0x10000 <=? c) && (c <? 0x110000)
                then cons c <$> utf8_decode_fuel fuel' r3 else None
            | _ => None
            end
          else None
      end
  end.

Definition utf8_decode (bs : bytes) : option str :=
  utf8_decode_fuel (length bs) bs.

(** *** str methods used on paths *)

(* s.split(sep) for a one-character separator *)
Fixpoint split_on (sep : N) (s : str) : list str :=
  match s with
  | [] => [[]]
  | c :: s' =>
      if c =? sep then [] :: split_on sep s'
      else match split_on sep s' with
           | [] => [[c]]
           | p :: ps => (c :: p) :: ps
           end
  end.

(* s.replace(old, new) for one-character old and new *)
Definition replace_char (old new : N) (s : str) : str :=
  map (fun c => if c =? old then new else c) s.

Fixpoint drop_while (p : N -> bool) (s : str) : str :=
  match s with
  | [] => []
  | c :: s' => if p c then drop_while p s' else s
  end.

(* s.rstrip(ch) *)
Definition rstrip_char (ch : N) (s : str) : str :=
  rev (drop_while (N.eqb ch) (rev s)).

Definition startswith_char (ch : N) (s : str) : bool :=
  match s with c :: _ => c =? ch | [] => false end.

Definition endswith_char (ch : N) (s : str) : bool :=
  startswith_char ch (rev s).

(** *** posixpath *)

Definition sep : N := 47.

(* os.path.isabs *)
Definition isabs (p : str) : bool := startswith_char sep p.

(* os.path.join(a, b) *)
Definition path_join (a b : str) : str :=
  if startswith_char sep b then b
  else if negb (truthy a) || endswith_char sep a then a ++ b
  else a ++ [sep] ++ b.

(* os.path.dirname(p): the head up to the last slash, its trailing slashes
   stripped unless it consists of slashes only *)
Definition dirname (p : str) : str :=
  let head := rev (drop_while (fun c => negb (c =? sep)) (rev p)) in
  if truthy head && negb (forallb (N.eqb sep) head)
  then rstrip_char sep head else head.

(* One iteration of the loop of posixpath.normpath over [comps]. *)
Definition normpath_step (initial_slashes : nat) (new_comps : list str) (comp : str)
    : list str :=
  if bool_decide (comp = []) || bool_decide (comp = lit ".") then new_comps
  else if negb (bool_decide (comp = lit ".."))
          || (Nat.eqb initial_slashes 0 && bool_decide (new_comps = []))
          || (negb (bool_decide (new_comps = []))
              && bool_decide (last new_comps = Some (lit "..")))
  then new_comps ++ [comp]
  else removelast new_comps.

(* s.startswith(prefix) *)
Fixpoint startswith (prefix s : str) : bool :=
  match prefix, s with
  | [], _ => true
  | _ :: _, [] => false
  | a :: prefix', c :: s' => (a =? c) && startswith prefix' s'
  end.

(* POSIX lets a path that begins with exactly two slashes differ from
   one that begins with one; three or more count as one. *)
Definition initial_slashes (path : str) : nat :=
  if negb (startswith [sep] path) then 0%nat
  else if startswith [sep; sep] path && negb (startswith [sep; sep; sep] path)
  then 2%nat else 1%nat.

(* The normalized components of a path. *)
Definition normpath_comps (path : str) : list str :=
  fold_left (normpath_step (initial_slashes path)) (split_on sep path) [].

(* os.path.normpath *)
Definition normpath (path : str) : str :=
  if negb (truthy path) then lit "."
  else
    let out := replicate (initial_slashes path) sep
               ++ join [sep] (normpath_comps path) in
    if truthy out then out else lit ".".

(* os.path.abspath, in a process whose working directory is [cwd] *)
Definition abspath (cwd path : str) : str :=
  normpath (if isabs path then path else path_join cwd path).

(** *** json.dumps(obj, ensure_ascii=False) on a flat dict *)

Inductive jvalue := JNull | JStr (s : str).

Definition hex_digit (d : N) : N :=
  if d <? 10 then 48 + d else 87 + d.

(* '\\u{0:04x}'.format(c) *)
Definition escape_u (c : N) : str :=
  lit "\u" ++ [hex_digit (c / 4096 mod 16); hex_digit (c / 256 mod 16);
               hex_digit (c / 16 mod 16); hex_digit (c mod 16)].

(* json.encoder.ESCAPE_DCT, applied to the characters ESCAPE matches:
   the quote, the backslash and the controls below 0x20.  Everything
   else, in particular every non-ASCII code point, is emitted as is. *)
Definition escape_char (c : N) : str :=
  if c =? 34 then [92; 34]
  else if c =? 92 then lit "\\"
  else if c =? 10 then lit "\n"
  else if c =? 13 then lit "\r"
  else if c =? 9 then lit "\t"
  else if c =? 8 then lit "\b"
  else if c =? 12 then lit "\f"
  else if c <? 32 then escape_u c
  else [c].

(* json.encoder.py_encode_basestring *)
Definition encode_basestring (s : str) : str :=
  [34] ++ concat (map escape_char s) ++ [34].

Definition dumps_value (v : jvalue) : str :=
  match v with
  | JNull => lit "null"
  | JStr s => encode_basestring s
  end.

Definition dumps_item (kv : str * jvalue) : str :=
  encode_basestring (fst kv) ++ lit ": " ++ dumps_value (snd kv).

(* The dict is kept as an association list in insertion order, which is
   the order json.dumps emits. *)
Definition json_dumps (d : list (str * jvalue)) : str :=
  lit "{" ++ join (lit ", ") (map dumps_item d) ++ lit "}".

(* A key and its value hold text. *)
Definition text_item (kv : str * jvalue) : Prop :=
  text (fst kv) /\ match snd kv with JStr s => text s | JNull => True end.

(** *** A reader for what json.dumps emits for a flat dict

    Strings are decoded as json.decoder.py_scanstring does in strict mode
    (raw control characters are rejected); values are strings or null. *)

Definition hex_value (c : N) : option N :=
  if (48 <=? c) && (c <=? 57) then Some (c - 48)
  else if (97 <=? c) && (c <=? 102) then Some (c - 87)
  else if (65 <=? c) && (c <=? 70) then Some (c - 55)
  else None.

(* The character a two-character escape stands for. *)
Definition unescape_simple (esc : N) : option N :=
  if esc =? 34 then Some 34
  else if esc =? 92 then Some 92
  else if esc =? 47 then Some 47
  else if esc =? 98 then Some 8
  else if esc =? 102 then Some 12
  else if esc =? 110 then Some 10
  else if esc =? 114 then Some 13
  else if esc =? 116 then Some 9
  else None.

(* From the character after the opening quote: the decoded string and
   what follows the closing quote. *)
Fixpoint scanstring (s : str) : option (str * str) :=
  match s with
  | [] => None
  | c :: rest =>
      if c =? 34 then Some ([], rest)
      else if c =? 92 then
        match rest with
        | [] => None
        | esc :: rest1 =>
            if esc =? 117 then
              match rest1 with
              | h1 :: h2 :: h3 :: h4 :: rest2 =>
                  match hex_value h1, hex_value h2, hex_value h3, hex_value h4,
                        scanstring rest2 with
                  | Some a, Some b, Some c', Some d, Some (body, tail) =>
                      Some ((((a * 16 + b) * 16 + c') * 16 + d) :: body, tail)
                  | _, _, _, _, _ => None
                  end
              | _ => None
              end
            else
              match unescape_simple esc, scanstring rest1 with
              | Some c', Some (body, tail) => Some (c' :: body, tail)
              | _, _ => None
              end
        end
      else if c <? 32 then None
      else
        match scanstring rest with
        | Some (body, tail) => Some (c :: body, tail)
        | None => None
        end
  end.

Definition json_ws (c : N) : bool :=
  (c =? 32) || (c =? 9) || (c =? 10) || (c =? 13).

Definition skip_ws (s : str) : str := drop_while json_ws s.

Definition parse_value (s : str) : option (jvalue * str) :=
  match s with
  | 34 :: rest =>
      match scanstring rest with
      | Some (v, tail) => Some (JStr v, tail)
      | None => None
      end
  | 110 :: 117 :: 108 :: 108 :: rest => Some (JNull, rest)
  | _ => None
  end.

(* "key": value *)
Definition parse_item (s : str) : option ((str * jvalue) * str) :=
  match skip_ws s with
  | 34 :: rest =>
      match scanstring rest with
      | Some (k, tail) =>
          match skip_ws tail with
          | 58 :: tail1 =>
              match parse_value (skip_ws tail1) with
              | Some (v, tail2) => Some ((k, v), tail2)
              | None => None
              end
          | _ => None
          end
      | None => None
      end
  | _ => None
  end.

(* item (, item)* } *)
Fixpoint parse_items (fuel : nat) (s : str) : option (list (str * jvalue) * str) :=
  match fuel with
  | O => None
  | S fuel' =>
      match parse_item s with
      | Some (kv, tail) =>
          match skip_ws tail with
          | 44 :: tail1 =>
              match parse_items fuel' tail1 with
              | Some (kvs, t) => Some (kv :: kvs, t)
              | None => None
              end
          | 125 :: tail1 => Some ([kv], tail1)
          | _ => None
          end
      | None => None
      end
  end.

Definition parse_flat_object (s : str) : option (list (str * jvalue)) :=
  match skip_ws s with
  | 123 :: rest =>
      match skip_ws rest with
      | 125 :: tail => if truthy (skip_ws tail) then None else Some []
      | _ =>
          match parse_items (length s) rest with
          | Some (kvs, tail) => if truthy (skip_ws tail) then None else Some kvs
          | None => None
          end
      end
  | _ => None
  end.

(* d[k] of the parsed object *)
Fixpoint jlookup (d : list (str * jvalue)) (k : str) : option jvalue :=
  match d with
  | [] => None
  | (k', v) :: d' => if bool_decide (k' = k) then Some v else jlookup d' k
  end.

End Py.

(** ** Effects: state passing with Python exceptions *)

Module Eff.

Inductive outcome (A : Type) : Type :=
| Returns (a : A)
| Raises (e : Py.exn).
Arguments Returns {A} a.
Arguments Raises {A} e.

(* A computation over a world [W]: the effects performed before an
   exception is raised stay performed. *)
Definition M (W A : Type) : Type := W -> outcome A * W.

Definition ret {W A} (a : A) : M W A := fun w => (Returns a, w).

Definition raise {W A} (e : Py.exn) : M W A := fun w => (Raises e, w).

Definition bind {W A B} (m : M W A) (k : A -> M W B) : M W B :=
  fun w =>
    match m w with
    | (Returns a, w') => k a w'
    | (Raises e, w') => (Raises e, w')
    end.

(* try: m  except Exception as e: h e *)
Definition try_except {W A} (m : M W A) (h : Py.exn -> M W A) : M W A :=
  fun w =>
    match m w with
    | (Returns a, w') => (Returns a, w')
    | (Raises e, w') => h e w'
    end.

Definition get {W} : M W W := fun w => (Returns w, w).

Definition modify {W} (f : W -> W) : M W unit := fun w => (Returns tt, f w).

(* for x in l: s = body(s, x) *)
Fixpoint for_each {W A S} (body : S -> A -> M W S) (s : S) (l : list A) : M W S :=
  match l with
  | [] => ret s
  | x :: l' => bind (body s x) (fun s' => for_each body s' l')
  end.

End Eff.

Notation "'let*' x ':=' c 'in' k" := (Eff.bind c (fun x => k))
  (at level 10, x pattern, c at level 100, k at level 200, only parsing).
Notation "'run' c 'then' k" := (Eff.bind c (fun _ => k))
  (at level 10, c at level 100, k at level 200, only parsing).

(** ** app.py: the ingestion pipeline *)

Module App.
Import Py Eff.

(* datetime.datetime, naive *)
Record datetime := Datetime {
  year : N; month : N; day : N;
  hour : N; minute : N; second : N; microsecond : N
}.

(* '%0*d' % (w, n) for 0 <= n < 10^w, the range of every datetime field *)
Fixpoint zero_padded (w : nat) (n : N) : str :=
  match w with
  | O => []
  | S w' => zero_padded w' (n / 10) ++ [48 + n mod 10]
  end.

(* datetime.isoformat() of a naive datetime: the fraction is printed only
   when microsecond is not zero. *)
Definition isoformat (d : datetime) : str :=
  zero_padded 4 (year d) ++ lit "-" ++ zero_padded 2 (month d) ++ lit "-"
  ++ zero_padded 2 (day d) ++ lit "T"
  ++ zero_padded 2 (hour d) ++ lit ":" ++ zero_padded 2 (minute d) ++ lit ":"
  ++ zero_padded 2 (second d)
  ++ (if microsecond d =? 0 then [] else lit "." ++ zero_padded 6 (microsecond d)).

Definition is_digit (c : N) : bool := (48 <=? c) && (c <=? 57).

(* YYYY-MM-DDTHH:MM:SS[.ffffff]Z *)
Definition iso8601_utc (s : str) : bool :=
  match s with
  | y1 :: y2 :: y3 :: y4 :: 45 :: m1 :: m2 :: 45 :: d1 :: d2 :: 84
    :: h1 :: h2 :: 58 :: mi1 :: mi2 :: 58 :: s1 :: s2 :: rest =>
      forallb is_digit [y1; y2; y3; y4; m1; m2; d1; d2; h1; h2; mi1; mi2; s1; s2]
      && match rest with
         | [90] => true
         | [46; f1; f2; f3; f4; f5; f6; 90] => forallb is_digit [f1; f2; f3; f4; f5; f6]
         | _ => false
         end
  | _ => false
  end.

Inductive event :=
| UploadAttempt (path_in_repo : str) (failure : option exn)  (* hf.upload_file *)
| Stdout (line : str)                                        (* print *)
| Sleep (seconds : nat).                                     (* time.sleep *)

Record world := World {
  hub : gmap str bytes;   (* the objects of the dataset repository *)
  upload_calls : nat;     (* calls of hf.upload_file so far *)
  uuid_calls : nat;       (* calls of uuid.uuid4 so far *)
  clock_calls : nat;      (* calls of datetime.utcnow so far *)
  trace : list event      (* what the process did, oldest first *)
}.

Definition emit (e : event) (w : world) : world :=
  World (hub w) (upload_calls w) (uuid_calls w) (clock_calls w) (trace w ++ [e]).

Definition paths_attempted (t : list event) : list str :=
  omap (fun e => match e with UploadAttempt p _ => Some p | _ => None end) t.

Definition paths_stored (t : list event) : list str :=
  omap (fun e => match e with UploadAttempt p None => Some p | _ => None end) t.

Definition seconds_slept (t : list event) : list nat :=
  omap (fun e => match e with Sleep s => Some s | _ => None end) t.

Section Ingestion.

Context {Samples : Type}.
(* soundfile.read(path, dtype="float32"): the samples and the sample rate
   of the file, or the exception raised for a file it cannot open or
   decode *)
Variable sf_read : str -> exn + Samples * N.
(* soundfile.write(buf, arr, samplerate=sr, format="FLAC"): pure codec *)
Variable sf_write_flac : Samples -> N -> bytes.
(* The Hub: whether the k-th call of upload_file, for this path and
   content, raises, and what. *)
Variable upload_fault : nat -> str -> bytes -> option exn.
(* str(uuid.uuid4()) and datetime.utcnow(), by call number *)
Variable uuid4 : nat -> str.
Variable utcnow : nat -> datetime.
(* os.environ after load_dotenv() *)
Variable environ : gmap str str.

(* REPO_SUBFOLDER = os.environ.get("HF_REPO_SUBFOLDER", "data") *)
Definition REPO_SUBFOLDER : str :=
  default (lit "data") (environ !! lit "HF_REPO_SUBFOLDER").

Definition print (line : str) : M world unit := modify (emit (Stdout line)).

Definition time_sleep (s : nat) : M world unit := modify (emit (Sleep s)).

Definition uuid_uuid4 : M world str :=
  fun w => (Returns (uuid4 (uuid_calls w)),
            World (hub w) (upload_calls w) (S (uuid_calls w)) (clock_calls w) (trace w)).

Definition datetime_utcnow : M world datetime :=
  fun w => (Returns (utcnow (clock_calls w)),
            World (hub w) (upload_calls w) (uuid_calls w) (S (clock_calls w)) (trace w)).

(* hf.upload_file(path_or_fileobj=.., path_in_repo=.., repo_id=REPO_ID,
   token=HF_TOKEN, repo_type="dataset"): the call either raises and
   leaves the repository as it was, or stores the object and returns. *)
Definition hf_upload_file (fileobj : bytes) (path_in_repo : str) : M world unit :=
  fun w =>
    let fault := upload_fault (upload_calls w) path_in_repo fileobj in
    let t := trace w ++ [UploadAttempt path_in_repo fault] in
    match fault with
    | Some e =>
        (Raises e,
         World (hub w) (S (upload_calls w)) (uuid_calls w) (clock_calls w) t)
    | None =>
        (Returns tt,
         World (<[path_in_repo := fileobj]> (hub w)) (S (upload_calls w))
               (uuid_calls w) (clock_calls w) t)
    end.

(* The loop of safe_upload over the remaining values of [attempt].  A
   loop that runs out falls off the end of the function (returns None). *)
Fixpoint safe_upload_loop (attempts : list nat) (fileobj : bytes)
    (path_in_repo : str) : M world unit :=
  match attempts with
  | [] => ret tt
  | attempt :: rest =>
      try_except (hf_upload_file fileobj path_in_repo)
        (fun e =>
           if Nat.eqb attempt 2 then raise e
           else
             run print (lit "Upload failed, retrying... (" ++ str_of_nat (attempt + 1)
                        ++ lit "/3)") then
             run time_sleep 2 then
             safe_upload_loop rest fileobj path_in_repo)
  end.

(* for attempt in range(3): ... *)
Definition safe_upload (fileobj : bytes) (path_in_repo : str) : M world unit :=
  safe_upload_loop (seq 0 3) fileobj path_in_repo.

(** The retry loop in closed form, for specifications.  [f i] is the
    fault of the attempt numbered [i], from 0. *)

(* What a failed attempt that is retried leaves in the trace. *)
Definition failed_round (path : str) (f : nat -> option exn) (i : nat) : list event :=
  [ UploadAttempt path (f i);
    Stdout (lit "Upload failed, retrying... (" ++ str_of_nat (i + 1) ++ lit "/3)");
    Sleep 2 ].

(* The number of the attempt that ends the loop: the first one that
   succeeds, or the third. *)
Definition last_attempt (f : nat -> option exn) : nat :=
  match f 0%nat, f 1%nat with
  | None, _ => 0%nat
  | Some _, None => 1%nat
  | Some _, Some _ => 2%nat
  end.

Definition retry_trace (path : str) (f : nat -> option exn) : list event :=
  flat_map (failed_round path f) (seq 0 (last_attempt f))
  ++ [UploadAttempt path (f (last_attempt f))].

(* The faults met by an upload that starts when [k] calls were made. *)
Definition faults_from (k : nat) (path : str) (obj : bytes) (i : nat) : option exn :=
  upload_fault (i + k) path obj.

(* The upload whose attempts meet the faults [f] succeeds at attempt [n]. *)
Definition succeeds_at (f : nat -> option exn) (n : nat) : Prop :=
  (n < 3)%nat /\ (forall i, (i < n)%nat -> is_Some (f i)) /\ f n = None.

Definition jopt (o : option str) : jvalue :=
  match o with None => JNull | Some s => JStr s end.

(* The dict literal of process_and_upload. *)
Definition meta_dict (entry_id audio_filename transcript : str)
    (speaker_id language : option str) (timestamp : str) : list (str * jvalue) :=
  [ (lit "id", JStr entry_id);
    (lit "audio", JStr audio_filename);
    (lit "transcript", JStr transcript);
    (lit "speaker_id", jopt speaker_id);
    (lit "language", jopt language);
    (lit "timestamp", JStr timestamp) ].

(* text.encode("utf-8") *)
Definition str_encode_utf8 (text : str) : M world bytes :=
  match utf8_encode text with
  | Some b => ret b
  | None => raise (Exn "UnicodeEncodeError" (lit "surrogates not allowed"))
  end.

Definition process_and_upload (audio_array : Samples) (sample_rate : N)
    (transcript : str) (speaker_id language : option str) : M world (bool * str) :=
  let* entry_id := uuid_uuid4 in
  let* now := datetime_utcnow in
  let timestamp := isoformat now ++ lit "Z" in
  let audio_filename := REPO_SUBFOLDER ++ lit "/" ++ entry_id ++ lit ".flac" in
  let json_filename := REPO_SUBFOLDER ++ lit "/" ++ entry_id ++ lit ".json" in
  let buf := sf_write_flac audio_array sample_rate in
  run safe_upload buf audio_filename then
  let meta := meta_dict entry_id audio_filename transcript speaker_id language timestamp in
  let* meta_bytes := str_encode_utf8 (json_dumps meta) in
  run safe_upload meta_bytes json_filename then
  ret (true, lit "Uploaded: " ++ entry_id).

(** Names for what the call made from world [w] works with, for
    specifications: the id is the one drawn by the call numbered
    [uuid_calls w] of uuid4. *)

Definition flac_path (k : nat) : str :=
  REPO_SUBFOLDER ++ lit "/" ++ uuid4 k ++ lit ".flac".

Definition json_path (k : nat) : str :=
  REPO_SUBFOLDER ++ lit "/" ++ uuid4 k ++ lit ".json".

Definition timestamp_of (w : world) : str :=
  isoformat (utcnow (clock_calls w)) ++ lit "Z".

Definition meta_of (w : world) (transcript : str) (speaker_id language : option str)
    : list (str * jvalue) :=
  meta_dict (uuid4 (uuid_calls w)) (flac_path (uuid_calls w)) transcript speaker_id
    language (timestamp_of w).

(* on_submit(audio_path, transcript, speaker_id="", language=""): the
   audio component hands over a file path, or None when nothing was
   recorded. *)
Definition on_submit (audio_path : option str) (transcript speaker_id language : str)
    : M world str :=
  match audio_path with
  | None => ret (lit "Please record audio and type transcript.")
  | Some path =>
      if negb (truthy (strip transcript))
      then ret (lit "Please record audio and type transcript.")
      else
        match sf_read path with
        | inl e => raise e
        | inr (arr, sr) =>
            let* r :=
              process_and_upload arr sr transcript (Some speaker_id) (Some language) in
            ret (snd r)
        end
  end.

End Ingestion.

(** Concrete collaborators and inputs, for examples. *)

Definition world0 : world := World ∅ 0 0 0 [].

Definition http_error : exn := Exn "HfHubHTTPError" (lit "504 Gateway Timeout").

(* A Hub that raises on its first [n] calls. *)
Definition failing_first (n : nat) : nat -> str -> bytes -> option exn :=
  fun k _ _ => if (k <? n)%nat then Some http_error else None.

(* A Hub that raises on the calls numbered from [a] to [b - 1]. *)
Definition failing_between (a b : nat) : nat -> str -> bytes -> option exn :=
  fun k _ _ => if ((a <=? k) && (k <? b))%nat then Some http_error else None.

(* What soundfile raises for a file that is not there. *)
Definition unreadable : exn :=
  Exn "LibsndfileError" (lit "Error opening 'missing.wav': System error.").

(* A codec on byte samples: reading gives the path's code points at
   16 kHz, except for missing.wav, which cannot be opened; writing is the
   identity. *)
Definition sample_read (path : str) : exn + list N * N :=
  if bool_decide (path = lit "missing.wav") then inl unreadable else inr (path, 16000).
Definition sample_write (arr : list N) (sr : N) : bytes := arr.

(* Ids that differ from call to call. *)
Definition sample_uuid4 (k : nat) : str := lit "id-" ++ replicate k 49.

Definition sample_utcnow (k : nat) : datetime := Datetime 2025 1 2 3 4 5 (N.of_nat k).

(* The submission of the end-to-end scenario: its metadata and the bytes
   of its sidecar. *)
Definition hello_meta : list (str * jvalue) :=
  meta_of sample_uuid4 sample_utcnow ∅ world0 (lit "hello world")
    (Some (lit "spk1")) (Some (lit "en")).

Definition hello_bytes : bytes := default [] (utf8_encode (json_dumps hello_meta)).

End App.

(** ** casting.py: the materialization pass *)

Module Casting.
Import Py Eff.

(* A record of the dataset, with the columns of the metadata sidecar.
   Under unresolve_features the audio column is read as the stored
   string. *)
Record row := Row {
  id : str; audio : str; transcript : str;
  speaker_id : option str; language : option str; timestamp : str
}.

Definition with_audio (v : str) (r : row) : row :=
  Row (id r) v (transcript r) (speaker_id r) (language r) (timestamp r).

(* The feature type of the audio column: Value("string") or Audio(). *)
Inductive feature := StringValue | AudioFeature.

(* A split of the dataset index (datasets.Dataset): its records and the
   feature type of its audio column.  Subscripting or iterating a split
   builds a new dict for each record. *)
Record dataset := Dataset { rows : list row; audio_feature : feature }.

(* Dataset.cast_column("audio", Audio()) *)
Definition cast_column_audio (d : dataset) : dataset :=
  Dataset (rows d) AudioFeature.

(* DatasetDict, and the plain dict that dataset.copy() returns: split
   name -> Dataset, in the dict's iteration order. *)
Abbreviation dataset_dict := (list (str * dataset)).

Definition keys (d : dataset_dict) : list str := map fst d.

(* d[k] *)
Fixpoint getitem (d : dataset_dict) (k : str) : option dataset :=
  match d with
  | [] => None
  | (k', v) :: d' => if bool_decide (k' = k) then Some v else getitem d' k
  end.

(* d[k] = v *)
Fixpoint setitem (d : dataset_dict) (k : str) (v : dataset) : dataset_dict :=
  match d with
  | [] => [(k, v)]
  | (k', v') :: d' =>
      if bool_decide (k' = k) then (k, v) :: d' else (k', v') :: setitem d' k v
  end.

(* key = f"{split}/{audio_filename_in_repo}" *)
Definition path_key (split audio_filename_in_repo : str) : str :=
  split ++ lit "/" ++ audio_filename_in_repo.

(* The key of a record of a split, for specifications. *)
Definition key_of (item : str * row) : str := path_key (fst item) (audio (snd item)).

(* Applying [g] to every split, for specifications. *)
Definition map_splits (g : str -> dataset -> dataset) (ds : dataset_dict) : dataset_dict :=
  map (fun kd => (fst kd, g (fst kd) (snd kd))) ds.

Inductive event :=
| Stdout (line : str)                                   (* print *)
| DownloadAttempt (filename : str) (failure : option exn)  (* hf_hub_download *)
| CopyAttempt (src dst : str) (failure : option exn)       (* shutil.copy2 *)
| PushAttempt (split : str) (failure : option exn).        (* push_to_hub *)

Record world := World {
  fs : gset (list str);       (* the paths that exist, as components from / *)
  remote : gmap str dataset;  (* the splits published on the Hub *)
  download_calls : nat;
  copy_calls : nat;
  push_calls : nat;
  trace : list event          (* oldest first *)
}.

Definition emit (e : event) (w : world) : world :=
  World (fs w) (remote w) (download_calls w) (copy_calls w) (push_calls w)
        (trace w ++ [e]).

Definition with_fs (f : gset (list str)) (w : world) : world :=
  World f (remote w) (download_calls w) (copy_calls w) (push_calls w) (trace w).

Definition lines_printed (t : list event) : list str :=
  omap (fun e => match e with Stdout l => Some l | _ => None end) t.



(* All prefixes of a list: a path and its ancestors. *)
Fixpoint inits {A} (l : list A) : list (list A) :=
  [] :: match l with
        | [] => []
        | x :: l' => map (cons x) (inits l')
        end.

(* --- IMPORTANT: CONFIGURATION --- *)
Definition REPO_ID : str := lit "IbraahimLab/Voice-so-data".
Definition REPO_SUBFOLDER : str := lit "tmp_audio_root".
Definition REPO_LOCAL_STORAGE : str :=
  path_join REPO_SUBFOLDER (List.last (split_on sep REPO_ID) []).
Definition LOCAL_CWD_DATA_DIR : str := lit "data".

Section Materialization.

(* os.getcwd() *)
Variable cwd : str.
(* What load_dataset(REPO_ID) does in this run. *)
Variable load_dataset : exn + dataset_dict.
(* Whether the k-th call of hf_hub_download, shutil.copy2 and push_to_hub
   raises, and what. *)
Variable download_fault : nat -> str -> option exn.
Variable copy_fault : nat -> str -> str -> option exn.
Variable push_fault : nat -> str -> dataset -> option exn.

Definition print (line : str) : M world unit := modify (emit (Stdout line)).

(* The file-system location a path names: the components of
   os.path.abspath(path). *)
Definition resolve (path : str) : list str :=
  normpath_comps (if isabs path then path else path_join cwd path).

(* os.path.exists *)
Definition os_path_exists (path : str) : M world bool :=
  fun w => (Returns (bool_decide (resolve path ∈ fs w)), w).

(* os.makedirs(path, exist_ok=True) *)
Definition os_makedirs (path : str) : M world unit :=
  modify (fun w => with_fs (fs w ∪ list_to_set (inits (resolve path))) w).

(* shutil.rmtree(path, ignore_errors=True): the tree is gone afterwards *)
Definition shutil_rmtree (path : str) : M world unit :=
  modify (fun w =>
    with_fs (filter (fun q => ¬ resolve path `prefix_of` q) (fs w)) w).

(* hf_hub_download(repo_id=REPO_ID, filename=.., local_dir=..,
   repo_type="dataset"): on success the file is at local_dir/filename and
   its absolute path is returned. *)
Definition hf_hub_download (filename local_dir : str) : M world str :=
  fun w =>
    let fault := download_fault (download_calls w) filename in
    let w1 := World (fs w) (remote w) (S (download_calls w)) (copy_calls w)
                    (push_calls w) (trace w ++ [DownloadAttempt filename fault]) in
    match fault with
    | Some e => (Raises e, w1)
    | None =>
        let target := path_join local_dir filename in
        (Returns (abspath cwd target),
         with_fs (fs w1 ∪ list_to_set (inits (resolve target))) w1)
    end.

(* shutil.copy2(src, dst): raises when the source does not exist or the
   copy itself fails. *)
Definition shutil_copy2 (src dst : str) : M world unit :=
  fun w =>
    let fault :=
      if bool_decide (resolve src ∈ fs w) then copy_fault (copy_calls w) src dst
      else Some (Exn "FileNotFoundError" src) in
    let w1 := World (fs w) (remote w) (download_calls w) (S (copy_calls w))
                    (push_calls w) (trace w ++ [CopyAttempt src dst fault]) in
    match fault with
    | Some e => (Raises e, w1)
    | None => (Returns tt, with_fs (fs w1 ∪ {[ resolve dst ]}) w1)
    end.

(* The audio file that a push of [d] cannot read: for a column cast to
   Audio the push embeds the bytes of the file each record names, the
   path taken from the working directory. *)
Definition missing_file (files : gset (list str)) (d : dataset) : option str :=
  match audio_feature d with
  | StringValue => None
  | AudioFeature =>
      audio <$> List.find (fun r => negb (bool_decide (resolve (audio r) ∈ files))) (rows d)
  end.

(* How the push of [d] as [split_name] fails when it is call number [k]
   and [files] are on disk. *)
Definition push_failure (files : gset (list str)) (k : nat) (split_name : str) (d : dataset)
    : option exn :=
  match missing_file files d with
  | Some path => Some (Exn "FileNotFoundError" path)
  | None => push_fault k split_name d
  end.

(* dataset_split.push_to_hub(REPO_ID, split=split_name) *)
Definition push_to_hub (d : dataset) (split_name : str) : M world unit :=
  fun w =>
    let fault := push_failure (fs w) (push_calls w) split_name d in
    let t := trace w ++ [PushAttempt split_name fault] in
    match fault with
    | Some e =>
        (Raises e,
         World (fs w) (remote w) (download_calls w) (copy_calls w) (S (push_calls w)) t)
    | None =>
        (Returns tt,
         World (fs w) (<[split_name := d]> (remote w)) (download_calls w)
               (copy_calls w) (S (push_calls w)) t)
    end.

(* dataset[split]: a missing key raises KeyError *)
Definition subscript (d : dataset_dict) (split : str) : M world dataset :=
  match getitem d split with
  | Some v => ret v
  | None => raise (Exn "KeyError" split)
  end.

(* local_cache_path = os.path.join(REPO_LOCAL_STORAGE,
                                   audio_filename_in_repo.replace('/', os.sep)) *)
Definition local_cache_path_of (audio_filename_in_repo : str) : str :=
  path_join REPO_LOCAL_STORAGE (replace_char 47 sep audio_filename_in_repo).

(* expected_cwd_path = os.path.join(os.getcwd(),
                                    audio_filename_in_repo.replace('/', os.sep)) *)
Definition expected_cwd_path_of (audio_filename_in_repo : str) : str :=
  path_join cwd (replace_char 47 sep audio_filename_in_repo).

(* The body of the inner loop of the download pass. *)
Definition download_row (split : str) (downloaded_paths : gmap str str) (r : row)
    : M world (gmap str str) :=
  let audio_filename_in_repo := audio r in
  let local_cache_path := local_cache_path_of audio_filename_in_repo in
  run os_makedirs (dirname local_cache_path) then
  let key := path_key split audio_filename_in_repo in
  let* cached := os_path_exists local_cache_path in
  if negb cached then
    try_except
      (let* downloaded_file_path :=
         hf_hub_download audio_filename_in_repo REPO_LOCAL_STORAGE in
       ret (<[key := downloaded_file_path]> downloaded_paths))
      (fun download_e =>
         run print ([10] ++ replicate 50 42) then
         run print (lit "CRITICAL DOWNLOAD FAILED: " ++ audio_filename_in_repo) then
         run print (lit "ACTUAL EXCEPTION DETAIL: " ++ exn_msg download_e) then
         run print (replicate 50 42 ++ [10]) then
         ret downloaded_paths)
  else ret (<[key := local_cache_path]> downloaded_paths).

(* for split in dataset.keys(): for row in dataset[split]: ... *)
Definition download_pass (ds : dataset_dict) : M world (gmap str str) :=
  for_each
    (fun downloaded_paths split =>
       let* d := subscript ds split in
       for_each (download_row split) downloaded_paths (rows d))
    ∅ (keys ds).

(* updated_dataset[split][i]['audio'] = value: updated_dataset[split][i]
   is a dict built for the occasion, the assignment changes that dict and
   the split keeps its record; a missing split or index raises. *)
Definition assign_audio (updated : dataset_dict) (split : str) (i : nat) (value : str)
    : M world unit :=
  let* d := subscript updated split in
  match rows d !! i with
  | None => raise (Exn "IndexError" (lit "index out of range"))
  | Some r => let fresh := with_audio value r in ret tt
  end.

(* The body of the inner loop of the rewrite pass. *)
Definition rewrite_row (downloaded_paths : gmap str str) (split : str)
    (updated : dataset_dict) (ir : nat * row) : M world dataset_dict :=
  let '(i, r) := ir in
  let audio_filename_in_repo := audio r in
  let key := path_key split audio_filename_in_repo in
  match downloaded_paths !! key with
  | Some source_path =>
      let expected_cwd_path := expected_cwd_path_of audio_filename_in_repo in
      run try_except
            (run os_makedirs (dirname expected_cwd_path) then
             shutil_copy2 source_path expected_cwd_path)
            (fun copy_e =>
               print (lit "WARNING: Failed to copy file to CWD: " ++ expected_cwd_path
                      ++ lit ". Push may fail. Details: " ++ exn_msg copy_e)) then
      run assign_audio updated split i (abspath cwd expected_cwd_path) then
      ret updated
  | None => ret updated
  end.

(* for split in updated_dataset.keys():
     for i, row in enumerate(updated_dataset[split]): ... *)
Definition rewrite_pass (downloaded_paths : gmap str str) (updated : dataset_dict)
    : M world dataset_dict :=
  for_each
    (fun updated split =>
       let* d := subscript updated split in
       for_each (rewrite_row downloaded_paths split) updated (imap pair (rows d)))
    updated (keys updated).

(* for split in updated_dataset.keys():
     updated_dataset[split] = updated_dataset[split].cast_column("audio", Audio()) *)
Definition cast_pass (updated : dataset_dict) : M world dataset_dict :=
  for_each
    (fun updated split =>
       let* d := subscript updated split in
       ret (setitem updated split (cast_column_audio d)))
    updated (keys updated).

(* The body of the loop over updated_dataset.items(). *)
Definition push_split (_ : unit) (item : str * dataset) : M world unit :=
  run print (lit "Pushing split '" ++ fst item ++ lit "'...") then
  push_to_hub (snd item) (fst item).

(* The body of the try block of the push. *)
Definition push_all (updated : dataset_dict) : M world unit :=
  run for_each push_split tt updated then
  print (lit "Dataset successfully updated on Hugging Face!").

Definition push_pass (updated : dataset_dict) : M world unit :=
  try_except (push_all updated)
    (fun push_e =>
       run print ([10] ++ replicate 70 61) then
       run print (lit "FATAL PUSH ERROR: Failed to push to Hugging Face Hub.") then
       run print (lit "This usually means your token lacks WRITE permission or there is a final path mismatch.") then
       run print (lit "Details: " ++ exn_msg push_e) then
       print (replicate 70 61 ++ [10])).

(* obj.features for a DatasetDict or a dict: neither type has the
   attribute (it is one of Dataset). *)
Definition getattr_features (type_name : string) : M world unit :=
  raise (Exn "AttributeError"
           (lit "'" ++ lit type_name ++ lit "' object has no attribute 'features'")).

(* with unresolve_features(obj.features): body
   The argument is evaluated before the call is made and the block is
   entered, so that what unresolve_features would do is never asked
   (the name is bound by the import of line 9, taken to succeed). *)
Definition with_unresolve_features {A} (type_name : string) (body : M world A) : M world A :=
  run getattr_features type_name then body.

(* dataset.copy(): dict.copy, a plain dict of the same splits *)
Definition dict_copy (ds : dataset_dict) : dataset_dict := ds.

(* Lines 42-126: from the loaded dataset to the cast one. *)
Definition materialize (ds : dataset_dict) : M world dataset_dict :=
  run print (lit "Downloading audio files temporarily for casting...") then
  let* downloaded_paths := with_unresolve_features "DatasetDict" (download_pass ds) in
  run print (lit "Download completed.") then
  run print (lit "Preparing local files and updating dataset paths...") then
  let updated_dataset := dict_copy ds in
  let* updated :=
    with_unresolve_features "dict" (rewrite_pass downloaded_paths updated_dataset) in
  run print (lit "Casting 'audio' column...") then
  cast_pass updated.


Definition cleanup : M world unit :=
  run shutil_rmtree REPO_SUBFOLDER then
  run shutil_rmtree LOCAL_CWD_DATA_DIR then
  print (lit "Temporary files cleaned up.").

Definition process_dataset : M world unit :=
  run os_makedirs REPO_LOCAL_STORAGE then
  run os_makedirs LOCAL_CWD_DATA_DIR then
  run print (lit "Attempting to load dataset: " ++ REPO_ID) then
  match load_dataset with
  | inl e =>
      if is_RepositoryNotFoundError e then
        run print (lit "FATAL ERROR: Could not load repository. Check spelling or permissions.") then
        shutil_rmtree REPO_SUBFOLDER
      else raise e
  | inr ds =>
      let* updated := materialize ds in
      run print (lit "Pushing dataset with cast audio back to Hugging Face repository: "
                 ++ REPO_ID ++ lit "...") then
      run push_pass updated then
      cleanup
  end.

(** For specifications: the records in the order both passes visit
    them, the download pass over such a list, and how the download pass
    finds the file of a record it reaches in world [w]. *)

Definition records (ds : dataset_dict) : list (str * row) :=
  flat_map (fun kd => map (pair (fst kd)) (rows (snd kd))) ds.

Definition download_records (downloaded_paths : gmap str str) (items : list (str * row))
    : M world (gmap str str) :=
  for_each (fun dp item => download_row (fst item) dp (snd item)) downloaded_paths items.

Inductive fetched :=
| Cached                (* the file was in the local cache *)
| Downloaded            (* hf_hub_download returned *)
| Failed (e : exn).     (* hf_hub_download raised *)

Definition fetch_of (w : world) (r : row) : fetched :=
  let w1 := snd (os_makedirs (dirname (local_cache_path_of (audio r))) w) in
  if bool_decide (resolve (local_cache_path_of (audio r)) ∈ fs w1) then Cached
  else match download_fault (download_calls w1) (audio r) with
       | None => Downloaded
       | Some e => Failed e
       end.

(* What the cast loop makes of the dataset. *)
Definition cast_all (ds : dataset_dict) : dataset_dict :=
  map_splits (fun _ d => cast_column_audio d) ds.

(* The exception of line 49. *)
Definition no_features : exn :=
  Exn "AttributeError" (lit "'DatasetDict' object has no attribute 'features'").

End Materialization.

(** Concrete inputs, for examples. *)

Definition sample_row (name : string) : row :=
  Row (lit name) (lit "data/" ++ lit name ++ lit ".flac") (lit "hello") None None
      (lit "2025-01-02T03:04:05Z").

Definition sample_dataset : dataset_dict :=
  [ (lit "train", Dataset [sample_row "a"; sample_row "b"] StringValue);
    (lit "test", Dataset [sample_row "c"] StringValue) ].

Definition sample_cwd : str := lit "/home/user/collector".

Definition empty_world : world := World ∅ ∅ 0 0 0 [].

Definition not_found : exn := Exn "RepositoryNotFoundError" (lit "404 Client Error").


Definition forbidden : exn := Exn "HfHubHTTPError" (lit "403 Forbidden").


Definition no_download_fault (k : nat) (filename : str) : option exn := None.

Definition no_copy_fault (k : nat) (src dst : str) : option exn := None.

Definition no_push_fault (k : nat) (split : str) (d : dataset) : option exn := None.


(* A repository the token may not read without accepting its terms. *)
Definition gated : exn := Exn "GatedRepoError" (lit "403 Client Error").



End Casting.

(** ** Further notions for specifications *)

Module AppNotions.
Import Py Eff App.

Definition lines_printed (t : list event) : list str :=
  omap (fun e => match e with Stdout l => Some l | _ => None end) t.

(* The string on_submit returns when its check fails. *)
Definition validation_message : str := lit "Please record audio and type transcript.".

(* What the check of on_submit rejects. *)
Definition rejected (audio_path : option str) (transcript : str) : Prop :=
  audio_path = None \/ Forall (fun c => isspace c = true) transcript.

(* The code points U+D800 to U+DFFF. *)
Definition is_surrogate (c : N) : bool := (0xD800 <=? c) && (c <=? 0xDFFF).

(** Concrete inputs, for examples. *)

(* A repository that holds a README. *)
Definition readme_world : world := World {[ lit "README.md" := [35; 32; 86] ]} 0 0 0 [].

(* The letter h followed by a high surrogate without its low one. *)
Definition lone_surrogate : str := [104; 0xD83D].

End AppNotions.

Module CastingNotions.
Import Py Eff Casting.

(* A computation keeps the relation [R] between the world it starts in
   and the world it leaves, whether it returns or raises. *)
Definition preserves {W A} (R : W -> W -> Prop) (c : M W A) : Prop :=
  forall w, R w (snd (c w)).

Definition downloads_attempted (t : list event) : list str :=
  omap (fun e => match e with DownloadAttempt f _ => Some f | _ => None end) t.

Definition downloads_succeeded (t : list event) : list str :=
  omap (fun e => match e with DownloadAttempt f None => Some f | _ => None end) t.

(* The Hub holds the same splits and push_to_hub was not called. *)
Definition no_hub_write (w w' : world) : Prop :=
  remote w' = remote w /\ push_calls w' = push_calls w.

Section Places.

Variable cwd : str.

(* The two trees that the pass creates and removes. *)
Definition in_scratch (p : list str) : Prop :=
  resolve cwd REPO_SUBFOLDER `prefix_of` p \/ resolve cwd LOCAL_CWD_DATA_DIR `prefix_of` p.

(* Every path of [w] outside the two trees is still there in [w']. *)
Definition keeps_outside (w w' : world) : Prop :=
  forall p, p ∈ fs w -> ~ in_scratch p -> p ∈ fs w'.

(* Lines 30-34: the world in which load_dataset is called. *)
Definition load_start (w : world) : world :=
  snd ((run os_makedirs cwd REPO_LOCAL_STORAGE then
        run os_makedirs cwd LOCAL_CWD_DATA_DIR then
        print (lit "Attempting to load dataset: " ++ REPO_ID)) w).

(* The world in which the download loop starts. *)
Definition download_start (w : world) : world :=
  emit (Stdout (lit "Downloading audio files temporarily for casting...")) (load_start w).

End Places.

(** Concrete inputs, for examples. *)

(* A disk that holds /etc beside the working directory. *)
Definition etc_world : world := World {[ [lit "etc"] ]} ∅ 0 0 0 [].

End CastingNotions.

(** * Facts about the Python values *)

(* lia with division and remainder by constants *)
Ltac Zify.zify_post_hook ::= Z.to_euclidean_division_equations.

Module PyFacts.
Import Py.

Lemma lit_cons (a : ascii) (s : string) : lit (String a s) = N_of_ascii a :: lit s.
Proof. reflexivity. Qed.

Lemma lit_nil : lit EmptyString = [].
Proof. reflexivity. Qed.

(** ** The JSON text round-trips *)

Lemma escape_char_small (c : N) (rest : str) :
  c < 32 -> scanstring (escape_char c ++ rest) =
            match scanstring rest with
            | Some (body, tail) => Some (c :: body, tail)
            | None => None
            end.
Proof.
  intros Hc.
  assert (In c (map N.of_nat (seq 0 32))) as Hin.
  { apply in_map_iff. exists (N.to_nat c). split; [lia|]. apply in_seq. lia. }
  cbn in Hin.
  repeat (destruct Hin as [<- | Hin]; [vm_compute escape_char; cbn; destruct (scanstring rest) as [[? ?]|]; reflexivity|]).
  destruct Hin.
Qed.

Lemma escape_char_plain (c : N) :
  32 <= c -> c <> 34 -> c <> 92 -> escape_char c = [c].
Proof.
  intros H1 H2 H3. unfold escape_char.
  repeat match goal with
         | |- context [?a =? ?b] => destruct (N.eqb_spec a b); [lia|]
         end.
  destruct (N.ltb_spec c 32); [lia|reflexivity].
Qed.

Lemma scanstring_escape_char (c : N) (rest : str) :
  scanstring (escape_char c ++ rest) =
    match scanstring rest with
    | Some (body, tail) => Some (c :: body, tail)
    | None => None
    end.
Proof.
  destruct (N.ltb_spec c 32) as [Hlt|Hge]; [now apply escape_char_small|].
  destruct (N.eq_dec c 34) as [->|H34].
  { vm_compute escape_char. cbn. destruct (scanstring rest) as [[? ?]|]; reflexivity. }
  destruct (N.eq_dec c 92) as [->|H92].
  { vm_compute escape_char. cbn. destruct (scanstring rest) as [[? ?]|]; reflexivity. }
  rewrite escape_char_plain by assumption.
  cbn [app scanstring].
  destruct (N.eqb_spec c 34); [lia|]. destruct (N.eqb_spec c 92); [lia|].
  destruct (N.ltb_spec c 32); [lia|]. reflexivity.
Qed.

Lemma scanstring_encoded (s rest : str) :
  scanstring (concat (map escape_char s) ++ 34 :: rest) = Some (s, rest).
Proof.
  induction s as [|c s IH]; [reflexivity|].
  cbn [map concat]. rewrite <- app_assoc, scanstring_escape_char, IH. reflexivity.
Qed.

Lemma encode_basestring_cons (s rest : str) :
  encode_basestring s ++ rest = 34 :: concat (map escape_char s) ++ 34 :: rest.
Proof. unfold encode_basestring. cbn. now rewrite <- app_assoc. Qed.

Lemma parse_value_dumps (v : jvalue) (rest : str) :
  parse_value (dumps_value v ++ rest) = Some (v, rest).
Proof.
  destruct v as [|s]; [reflexivity|].
  cbn [dumps_value]. rewrite encode_basestring_cons.
  cbn [parse_value]. now rewrite scanstring_encoded.
Qed.

Lemma dumps_value_head (v : jvalue) (rest : str) :
  exists c t, dumps_value v ++ rest = c :: t /\ json_ws c = false.
Proof.
  destruct v as [|s].
  - exists 110, (lit "ull" ++ rest). split; reflexivity.
  - rewrite (encode_basestring_cons s rest : dumps_value (JStr s) ++ rest = _).
    eexists _, _. split; reflexivity.
Qed.

Lemma parse_item_dumps (kv : str * jvalue) (rest : str) :
  parse_item (dumps_item kv ++ rest) = Some (kv, rest).
Proof.
  destruct kv as [k v]. unfold dumps_item, parse_item. cbn [fst snd].
  rewrite <- !app_assoc, encode_basestring_cons.
  cbn [skip_ws drop_while json_ws N.eqb Pos.eqb orb].
  rewrite scanstring_encoded.
  change (lit ": " ++ dumps_value v ++ rest) with (58 :: 32 :: (dumps_value v ++ rest)).
  cbn [skip_ws drop_while json_ws N.eqb Pos.eqb orb].
  destruct (dumps_value_head v rest) as (c & t & E & Hc).
  rewrite E. cbn [drop_while]. rewrite Hc, <- E.
  now rewrite parse_value_dumps.
Qed.

Lemma parse_items_dumps (d : list (str * jvalue)) (fuel : nat) (rest : str) :
  d <> [] -> (length d <= fuel)%nat ->
  parse_items fuel (join (lit ", ") (map dumps_item d) ++ 125 :: rest) = Some (d, rest).
Proof.
  revert fuel. induction d as [|kv d IH]; intros fuel Hne Hfuel; [congruence|].
  destruct fuel as [|fuel]; [cbn in Hfuel; lia|].
  destruct d as [|kv' d].
  - cbn [map join parse_items]. rewrite parse_item_dumps. reflexivity.
  - change (join (lit ", ") (map dumps_item (kv :: kv' :: d)))
      with (dumps_item kv ++ lit ", " ++ join (lit ", ") (map dumps_item (kv' :: d))).
    cbn [parse_items]. rewrite <- !app_assoc, parse_item_dumps.
    change (lit ", " ++ ?x) with (44 :: 32 :: x).
    cbn [skip_ws drop_while json_ws N.eqb Pos.eqb orb].
    change (32 :: ?x) with ([32] ++ x).
    assert (forall x, parse_items fuel ([32] ++ x) = parse_items fuel x) as Hsp.
    { intros x. destruct fuel; [reflexivity|]. reflexivity. }
    rewrite Hsp, IH; [reflexivity|congruence|cbn in *; lia].
Qed.

Lemma length_join_items (d : list (str * jvalue)) :
  (length d <= length (join (lit ", ") (map dumps_item d)) + 1)%nat.
Proof.
  induction d as [|kv [|kv' d] IH]; [cbn; lia|cbn; lia|].
  change (join (lit ", ") (map dumps_item (kv :: kv' :: d)))
    with (dumps_item kv ++ lit ", " ++ join (lit ", ") (map dumps_item (kv' :: d))).
  rewrite !length_app. cbn [length] in *. change (length (lit ", ")) with 2%nat. lia.
Qed.

(* Reading back the text json.dumps produced gives the dict. *)
Lemma parse_json_dumps (d : list (str * jvalue)) :
  parse_flat_object (json_dumps d) = Some d.
Proof.
  unfold json_dumps, parse_flat_object.
  change (lit "{" ++ ?x) with (123 :: x).
  cbn [skip_ws drop_while json_ws N.eqb Pos.eqb orb].
  destruct d as [|kv d]; [reflexivity|].
  change (lit "}") with [125].
  assert (exists t, join (lit ", ") (map dumps_item (kv :: d)) ++ [125] = 34 :: t) as (t & E).
  { destruct d; cbn [map join]; unfold dumps_item;
      rewrite <- ?app_assoc, encode_basestring_cons; eexists; reflexivity. }
  rewrite parse_items_dumps; [|congruence|].
  - rewrite E. reflexivity.
  - pose proof (length_join_items (kv :: d)) as Hlen.
    cbn [length]. rewrite length_app. cbn [length] in *. lia.
Qed.

(* Outside the quote, the backslash and the controls nothing is escaped:
   text without them, non-ASCII included, is emitted as it is. *)
Lemma encode_basestring_verbatim (s : str) :
  Forall (fun c => 32 <= c /\ c <> 34 /\ c <> 92) s ->
  encode_basestring s = [34] ++ s ++ [34].
Proof.
  intros H. unfold encode_basestring. do 2 f_equal.
  induction H as [|c s (H1 & H2 & H3) _ IH]; [reflexivity|].
  cbn. now rewrite escape_char_plain, IH.
Qed.

Lemma join_contains (sep x : str) (l : list str) :
  In x l -> exists a b, join sep l = a ++ x ++ b.
Proof.
  induction l as [|y [|z l] IH]; intros Hin; [destruct Hin| |].
  - destruct Hin as [->|[]]. exists [], []. cbn. now rewrite app_nil_r.
  - change (join sep (y :: z :: l)) with (y ++ sep ++ join sep (z :: l)).
    destruct Hin as [->|Hin].
    + exists [], (sep ++ join sep (z :: l)). reflexivity.
    + destruct (IH Hin) as (a & b & ->). exists (y ++ sep ++ a), b.
      now rewrite <- !app_assoc.
Qed.

(* A string value of the dict stands in the text as its quoted form. *)
Lemma json_dumps_contains (d : list (str * jvalue)) (k s : str) :
  In (k, JStr s) d ->
  exists before after, json_dumps d = before ++ encode_basestring s ++ after.
Proof.
  intros Hin. unfold json_dumps.
  destruct (join_contains (lit ", ") (dumps_item (k, JStr s)) (map dumps_item d))
    as (a & b & ->); [now apply in_map|].
  unfold dumps_item. cbn [fst snd dumps_value].
  exists (lit "{" ++ a ++ encode_basestring k ++ lit ": "), (b ++ lit "}").
  now rewrite <- !app_assoc.
Qed.

End PyFacts.

Module Utf8Facts.
Import Py.

#[local] Ltac decide_tests :=
  repeat match goal with
         | |- context [?a <? ?b] => destruct (N.ltb_spec a b); try lia
         | |- context [?a <=? ?b] => destruct (N.leb_spec a b); try lia
         end.

Lemma utf8_decode_char (c : N) (b rest : bytes) (fuel : nat) :
  utf8_char c = Some b ->
  utf8_decode_fuel (S fuel) (b ++ rest) = cons c <$> utf8_decode_fuel fuel rest.
Proof.
  unfold utf8_char. intros H.
  destruct (N.ltb_spec c 0x80).
  { injection H as <-. cbn [app utf8_decode_fuel]. decide_tests. reflexivity. }
  destruct (N.ltb_spec c 0x800).
  { injection H as <-. cbn [app utf8_decode_fuel]. unfold is_cont. decide_tests.
    cbn [andb]. do 2 f_equal. lia. }
  destruct (N.leb_spec 0xD800 c), (N.leb_spec c 0xDFFF); cbn [andb] in H; try discriminate.
  all: destruct (N.ltb_spec c 0x10000).
  all: try (injection H as <-; cbn [app utf8_decode_fuel]; unfold is_cont; decide_tests;
            cbn [andb negb]; do 2 f_equal; lia).
  all: destruct (N.ltb_spec c 0x110000); try discriminate.
  all: injection H as <-; cbn [app utf8_decode_fuel]; unfold is_cont; decide_tests;
       cbn [andb negb]; do 2 f_equal; lia.
Qed.

Lemma utf8_char_length (c : N) (b : bytes) :
  utf8_char c = Some b -> (1 <= length b)%nat.
Proof.
  unfold utf8_char. intros H.
  repeat match type of H with
         | (if ?t then _ else _) = _ => destruct t
         end; try discriminate; injection H as <-; cbn; lia.
Qed.

Lemma utf8_decode_fuel_encode (s : str) (bs : bytes) (fuel : nat) :
  utf8_encode s = Some bs -> (length bs <= fuel)%nat ->
  utf8_decode_fuel fuel bs = Some s.
Proof.
  revert bs fuel. induction s as [|c s IH]; intros bs fuel H Hfuel.
  - injection H as <-. destruct fuel; reflexivity.
  - cbn [utf8_encode] in H.
    destruct (utf8_char c) as [b|] eqn:Hc; [|discriminate].
    destruct (utf8_encode s) as [bs'|] eqn:Hs; [|discriminate].
    injection H as <-.
    pose proof (utf8_char_length _ _ Hc). rewrite length_app in Hfuel.
    destruct fuel as [|fuel]; [lia|].
    rewrite (utf8_decode_char _ _ _ _ Hc), (IH bs' fuel eq_refl); [reflexivity|lia].
Qed.

(* Decoding the bytes that encode produced gives the text back. *)
Lemma utf8_decode_encode (s : str) (bs : bytes) :
  utf8_encode s = Some bs -> utf8_decode bs = Some s.
Proof. intros H. apply utf8_decode_fuel_encode; [assumption|reflexivity]. Qed.

(* Every byte that encode emits is an octet. *)
Lemma utf8_encode_octets (s : str) (bs : bytes) :
  utf8_encode s = Some bs -> Forall (fun b => b < 256) bs.
Proof.
  revert bs. induction s as [|c s IH]; intros bs H.
  - injection H as <-. constructor.
  - cbn [utf8_encode] in H.
    destruct (utf8_char c) as [b|] eqn:Hc; [|discriminate].
    destruct (utf8_encode s) as [bs'|] eqn:Hs; [|discriminate].
    injection H as <-. apply Forall_app. split; [|apply IH; reflexivity].
    unfold utf8_char in Hc.
    repeat match type of Hc with
           | (if ?a <? ?b then _ else _) = _ => destruct (N.ltb_spec a b)
           | (if ?t then _ else _) = _ => destruct t
           end; try discriminate; injection Hc as <-; repeat constructor; lia.
Qed.

End Utf8Facts.

(** ** Text without lone surrogates has a UTF-8 encoding *)

Module TextFacts.
Import Py.

Lemma utf8_char_scalar (c : N) : is_scalar c = true -> is_Some (utf8_char c).
Proof.
  unfold is_scalar, utf8_char. intros H.
  destruct (N.ltb_spec c 0x80); [eauto|].
  destruct (N.ltb_spec c 0x800); [eauto|].
  destruct (N.leb_spec 0xD800 c), (N.leb_spec c 0xDFFF); cbn [andb].
  - exfalso. destruct (N.ltb_spec c 0xD800); [lia|].
    destruct (N.ltb_spec 0xDFFF c); [lia|]. discriminate H.
  - destruct (N.ltb_spec c 0x10000); [eauto|].
    destruct (N.ltb_spec c 0x110000); [eauto|]. exfalso.
    destruct (N.ltb_spec c 0xD800); [lia|]. rewrite andb_false_r in H. discriminate H.
  - destruct (N.ltb_spec c 0x10000); [eauto|]. lia.
  - lia.
Qed.

Lemma utf8_encode_text (s : str) : text s -> is_Some (utf8_encode s).
Proof.
  induction 1 as [|c s Hc _ [bs IH]]; [cbn; eauto|].
  destruct (utf8_char_scalar c Hc) as [b Hb]. cbn. rewrite Hb, IH. eauto.
Qed.

Lemma text_app (a b : str) : text a -> text b -> text (a ++ b).
Proof. intros Ha Hb. apply Forall_app. now split. Qed.

Lemma ascii_scalar (c : N) : c < 256 -> is_scalar c = true.
Proof. intros H. unfold is_scalar. destruct (N.ltb_spec c 0xD800); [reflexivity|lia]. Qed.

Lemma text_lit (s : string) : text (lit s).
Proof.
  induction s as [|a s IH]; [constructor|].
  constructor; [|exact IH]. apply ascii_scalar, N_ascii_bounded.
Qed.

Lemma hex_digit_scalar (d : N) : d < 16 -> is_scalar (hex_digit d) = true.
Proof. intros H. apply ascii_scalar. unfold hex_digit. destruct (d <? 10); lia. Qed.

Lemma text_escape_char (c : N) : is_scalar c = true -> text (escape_char c).
Proof.
  intros Hc. unfold escape_char.
  destruct (c =? 34); [repeat constructor|].
  destruct (c =? 92); [apply text_lit|].
  destruct (c =? 10); [apply text_lit|].
  destruct (c =? 13); [apply text_lit|].
  destruct (c =? 9); [apply text_lit|].
  destruct (c =? 8); [apply text_lit|].
  destruct (c =? 12); [apply text_lit|].
  destruct (c <? 32).
  - unfold escape_u. apply text_app; [apply text_lit|].
    repeat constructor; apply hex_digit_scalar; lia.
  - repeat constructor. exact Hc.
Qed.

Lemma text_encode_basestring (s : str) : text s -> text (encode_basestring s).
Proof.
  intros Hs. unfold encode_basestring.
  apply text_app; [repeat constructor|]. apply text_app; [|repeat constructor].
  induction Hs as [|c s Hc _ IH]; [constructor|].
  cbn. apply text_app; [now apply text_escape_char|exact IH].
Qed.

Lemma text_json_dumps (d : list (str * jvalue)) :
  Forall text_item d -> text (json_dumps d).
Proof.
  intros Hd. unfold json_dumps.
  apply text_app; [apply text_lit|]. apply text_app; [|apply text_lit].
  induction Hd as [|[k v] d [Hk Hv] Hd IH]; [constructor|].
  assert (text (dumps_item (k, v))) as Hitem.
  { unfold dumps_item. cbn [fst snd] in *.
    apply text_app; [now apply text_encode_basestring|].
    apply text_app; [apply text_lit|].
    destruct v; [apply text_lit|now apply text_encode_basestring]. }
  destruct d as [|kv d]; [exact Hitem|].
  change (join (lit ", ") (map dumps_item ((k, v) :: kv :: d)))
    with (dumps_item (k, v) ++ lit ", " ++ join (lit ", ") (map dumps_item (kv :: d))).
  apply text_app; [exact Hitem|]. apply text_app; [apply text_lit|exact IH].
Qed.

End TextFacts.

(** * Verification of the ingestion pipeline *)

Module AppSpec.
Import Py Eff App.

(** ** The validation of on_submit *)

Lemma strip_whitespace_only (s : str) :
  Forall (fun c => isspace c = true) s -> strip s = [].
Proof.
  intros H. unfold strip.
  assert (lstrip s = []) as ->.
  { induction H as [|c s Hc _ IH]; [reflexivity|]. cbn. now rewrite Hc. }
  reflexivity.
Qed.

Lemma lstrip_keeps_non_space (s : str) (c : N) :
  c ∈ s -> isspace c = false -> lstrip s <> [].
Proof.
  induction s as [|a s IH]; intros Hin Hc.
  - inversion Hin.
  - cbn. destruct (isspace a) eqn:Ha; [|discriminate].
    apply IH; [|assumption].
    apply elem_of_cons in Hin as [->|Hin]; [congruence|assumption].
Qed.

Lemma lstrip_elem_of (s : str) (c : N) : c ∈ lstrip s -> c ∈ s.
Proof.
  induction s as [|a s IH]; cbn; [trivial|].
  destruct (isspace a); intros H; [right; auto|assumption].
Qed.

Lemma lstrip_head (s : str) : Forall (fun c => isspace c = false) (take 1 (lstrip s)).
Proof.
  induction s as [|a s IH]; cbn; [constructor|].
  destruct (isspace a) eqn:Ha; [assumption|].
  cbn. rewrite take_0. repeat constructor. assumption.
Qed.

(* A transcript with a visible character passes the check of on_submit. *)
Lemma strip_truthy (s : str) (c : N) :
  c ∈ s -> isspace c = false -> truthy (strip s) = true.
Proof.
  intros Hin Hc. unfold strip.
  pose proof (lstrip_keeps_non_space s c Hin Hc) as H1.
  pose proof (lstrip_head s) as H2.
  destruct (lstrip s) as [|d t] eqn:E; [congruence|]. clear H1.
  cbn in H2. rewrite take_0 in H2. apply Forall_inv in H2.
  assert (d ∈ rev (d :: t)) as Hd
    by (apply list_elem_of_In; rewrite <- in_rev; left; reflexivity).
  pose proof (lstrip_keeps_non_space _ d Hd H2) as H3.
  destruct (lstrip (rev (d :: t))) as [|x u]; [congruence|].
  cbn. destruct (rev u ++ [x]) eqn:E2; [|reflexivity].
  now apply app_eq_nil in E2 as [_ ?].
Qed.


(** ** The retry loop *)

Lemma last_attempt_bound (f : nat -> option exn) : (last_attempt f < 3)%nat.
Proof. unfold last_attempt. destruct (f 0%nat), (f 1%nat); lia. Qed.

Lemma last_attempt_earlier_fail (f : nat -> option exn) (i : nat) :
  (i < last_attempt f)%nat -> is_Some (f i).
Proof.
  unfold last_attempt.
  destruct (f 0%nat) eqn:E0, (f 1%nat) eqn:E1; intros Hi;
    try lia; (assert (i = 0 \/ i = 1)%nat as [-> | ->] by lia); rewrite ?E0, ?E1; eauto; lia.
Qed.

Lemma last_attempt_early_success (f : nat -> option exn) :
  (last_attempt f < 2)%nat -> f (last_attempt f) = None.
Proof.
  unfold last_attempt.
  destruct (f 0%nat) eqn:E0, (f 1%nat) eqn:E1; intros Hi; try lia; assumption.
Qed.

(* The first successful attempt within the budget ends the loop. *)
Lemma last_attempt_first_success (f : nat -> option exn) (n : nat) :
  (n < 3)%nat -> (forall i, (i < n)%nat -> is_Some (f i)) -> f n = None ->
  last_attempt f = n.
Proof.
  intros Hn Hfail Hok. unfold last_attempt.
  destruct n as [|[|[|n]]]; try lia.
  - now rewrite Hok.
  - destruct (Hfail 0%nat) as [e0 ->]; [lia|]. now rewrite Hok.
  - destruct (Hfail 0%nat) as [e0 ->]; [lia|]. destruct (Hfail 1%nat) as [e1 ->]; [lia|].
    reflexivity.
Qed.

Lemma succeeds_at_last (f : nat -> option exn) (n : nat) :
  succeeds_at f n -> last_attempt f = n /\ f (last_attempt f) = None.
Proof.
  intros (Hn & Hfail & Hok).
  rewrite (last_attempt_first_success f n) by assumption. now split.
Qed.

Lemma succeeds_at_once (f : nat -> option exn) : f 0%nat = None -> succeeds_at f 0.
Proof. intros H. split; [lia|]. split; [intros i Hi; lia|exact H]. Qed.

Lemma succeeds_at_third (f : nat -> option exn) :
  is_Some (f 0%nat) -> is_Some (f 1%nat) -> f 2%nat = None -> succeeds_at f 2.
Proof.
  intros H0 H1 H2. split; [lia|]. split; [|exact H2].
  intros [|[|i]] Hi; [assumption|assumption|lia].
Qed.

Lemma retry_trace_attempted (path : str) (f : nat -> option exn) :
  paths_attempted (retry_trace path f) = replicate (S (last_attempt f)) path.
Proof.
  unfold retry_trace. pose proof (last_attempt_bound f).
  destruct (last_attempt f) as [|[|[|n]]]; try lia; reflexivity.
Qed.

Lemma retry_trace_slept (path : str) (f : nat -> option exn) :
  seconds_slept (retry_trace path f) = replicate (last_attempt f) 2%nat.
Proof.
  unfold retry_trace. pose proof (last_attempt_bound f).
  destruct (last_attempt f) as [|[|[|n]]]; try lia; reflexivity.
Qed.

Lemma retry_trace_stored (path : str) (f : nat -> option exn) :
  paths_stored (retry_trace path f) =
    match f (last_attempt f) with None => [path] | Some _ => [] end.
Proof.
  unfold retry_trace.
  pose proof (last_attempt_bound f) as Hb.
  pose proof (last_attempt_earlier_fail f) as Hf.
  destruct (last_attempt f) as [|[|[|n]]]; try lia; cbn.
  - destruct (f 0%nat); reflexivity.
  - destruct (Hf 0%nat) as [e0 ->]; [lia|]. destruct (f 1%nat); reflexivity.
  - destruct (Hf 0%nat) as [e0 ->]; [lia|]. destruct (Hf 1%nat) as [e1 ->]; [lia|].
    destruct (f 2%nat); reflexivity.
Qed.

Lemma paths_stored_app (t1 t2 : list event) :
  paths_stored (t1 ++ t2) = paths_stored t1 ++ paths_stored t2.
Proof. apply omap_app. Qed.

Lemma paths_attempted_app (t1 t2 : list event) :
  paths_attempted (t1 ++ t2) = paths_attempted t1 ++ paths_attempted t2.
Proof. apply omap_app. Qed.


Section RetryFacts.

Variable upload_fault : nat -> str -> bytes -> option exn.

Local Abbreviation safe_upload := (App.safe_upload upload_fault).
Local Abbreviation faults_from := (App.faults_from upload_fault).


(* safe_upload in closed form. *)
Lemma safe_upload_run (obj : bytes) (path : str) (w : world) :
  let f := faults_from (upload_calls w) path obj in
  let n := last_attempt f in
  safe_upload obj path w =
    (match f n with None => Returns tt | Some e => Raises e end,
     World (match f n with None => <[path := obj]> (hub w) | Some _ => hub w end)
           (S n + upload_calls w) (uuid_calls w) (clock_calls w)
           (trace w ++ retry_trace path f)).
Proof using Type.
  cbv zeta.
  unfold retry_trace, last_attempt, App.faults_from, App.safe_upload, App.safe_upload_loop,
    try_except, App.hf_upload_file, bind, print, time_sleep, modify, emit, raise, ret.
  cbn.
  destruct (upload_fault (upload_calls w) path obj) as [e0|] eqn:E0; cbn;
    rewrite ?E0; [|reflexivity].
  destruct (upload_fault (S (upload_calls w)) path obj) as [e1|] eqn:E1; cbn;
    rewrite ?E0, ?E1; cbn.
  2:{ rewrite <- !app_assoc. reflexivity. }
  destruct (upload_fault (S (S (upload_calls w))) path obj) as [e2|] eqn:E2; cbn;
    rewrite ?E0, ?E1, ?E2, <- !app_assoc; reflexivity.
Qed.

(** C1. Every upload is attempted at most three times.  The loop stops at
    the first attempt that succeeds, or at the third: each earlier attempt
    raised, whatever the exception, and was followed by a message and a
    sleep of exactly 2 seconds before the next attempt.  When the first two
    attempts raise and the third succeeds the upload succeeds after exactly
    three attempts; when all three raise, exactly three attempts are made
    and the exception of the third is the one that reaches the caller. *)
Theorem safe_upload_retry_budget (obj : bytes) (path : str) (w : world) :
  let f := faults_from (upload_calls w) path obj in
  let n := last_attempt f in
  let r := safe_upload obj path w in
  let new := drop (length (trace w)) (trace (snd r)) in
  ((n < 3)%nat /\ (forall i, (i < n)%nat -> is_Some (f i)) /\ ((n < 2)%nat -> f n = None)
   /\ new = retry_trace path f
   /\ paths_attempted new = replicate (S n) path
   /\ seconds_slept new = replicate n 2%nat
   /\ upload_calls (snd r) = (S n + upload_calls w)%nat
   /\ fst r = match f n with None => Returns tt | Some e => Raises e end)
  /\ (forall e0 e1, f 0%nat = Some e0 -> f 1%nat = Some e1 -> f 2%nat = None ->
      fst r = Returns tt /\ paths_attempted new = [path; path; path]
      /\ seconds_slept new = [2; 2]%nat /\ hub (snd r) = <[path := obj]> (hub w))
  /\ (forall e0 e1 e2, f 0%nat = Some e0 -> f 1%nat = Some e1 -> f 2%nat = Some e2 ->
      fst r = Raises e2 /\ paths_attempted new = [path; path; path]
      /\ seconds_slept new = [2; 2]%nat /\ hub (snd r) = hub w).
Proof using Type.
  cbv zeta. rewrite safe_upload_run. cbn [fst snd trace upload_calls hub].
  rewrite drop_app_length.
  split; [|split].
  - split; [apply last_attempt_bound|].
    split; [apply last_attempt_earlier_fail|].
    split; [apply last_attempt_early_success|].
    split; [reflexivity|].
    split; [apply retry_trace_attempted|].
    split; [apply retry_trace_slept|].
    split; reflexivity.
  - intros e0 e1 H0 H1 H2.
    rewrite retry_trace_attempted, retry_trace_slept.
    unfold last_attempt. rewrite H0, H1, H2. repeat split.
  - intros e0 e1 e2 H0 H1 H2.
    rewrite retry_trace_attempted, retry_trace_slept.
    unfold last_attempt. rewrite H0, H1, H2. repeat split.
Qed.


End RetryFacts.

(** ** The timestamp *)


Lemma is_digit_mod10 (n : N) : is_digit (48 + n mod 10) = true.
Proof.
  unfold is_digit. pose proof (N.mod_lt n 10 ltac:(lia)).
  apply andb_true_iff. split; apply N.leb_le; lia.
Qed.

(* The timestamp has the shape YYYY-MM-DDTHH:MM:SS[.ffffff]Z. *)
Lemma timestamp_shape (d : datetime) : iso8601_utc (isoformat d ++ lit "Z") = true.
Proof.
  unfold isoformat. cbn [zero_padded app].
  change (lit "-") with [45]. change (lit "T") with [84]. change (lit ":") with [58].
  change (lit ".") with [46]. change (lit "Z") with [90].
  destruct (microsecond d =? 0); cbn [app iso8601_utc forallb];
    rewrite ?is_digit_mod10; reflexivity.
Qed.


Lemma text_zero_padded (w : nat) (n : N) : text (zero_padded w n).
Proof.
  revert n. induction w as [|w IH]; intros n; [constructor|].
  cbn [zero_padded]. apply TextFacts.text_app; [apply IH|].
  repeat constructor. apply TextFacts.ascii_scalar. lia.
Qed.

Lemma text_isoformat (d : datetime) : text (isoformat d).
Proof.
  unfold isoformat.
  repeat (apply TextFacts.text_app;
          [first [apply text_zero_padded | apply TextFacts.text_lit]|]).
  destruct (microsecond d =? 0); [constructor|].
  apply TextFacts.text_app; [apply TextFacts.text_lit|apply text_zero_padded].
Qed.

(** ** process_and_upload *)

Section PipelineFacts.

Context {Samples : Type}.
Variable sf_write_flac : Samples -> N -> bytes.
Variable upload_fault : nat -> str -> bytes -> option exn.
Variable uuid4 : nat -> str.
Variable utcnow : nat -> datetime.
Variable environ : gmap str str.

Local Abbreviation faults_from := (App.faults_from upload_fault).
Local Abbreviation process_and_upload :=
  (App.process_and_upload sf_write_flac upload_fault uuid4 utcnow environ).
Local Abbreviation flac_path := (App.flac_path uuid4 environ).
Local Abbreviation json_path := (App.json_path uuid4 environ).
Local Abbreviation meta_of := (App.meta_of uuid4 utcnow environ).
Local Abbreviation timestamp_of := (App.timestamp_of utcnow).


Lemma flac_json_distinct (k k' : nat) : flac_path k <> json_path k'.
Proof using Type.
  unfold App.flac_path, App.json_path. intros H.
  apply app_inv_head in H. apply (f_equal (@rev N)) in H.
  rewrite !rev_app_distr in H. discriminate H.
Qed.



(** ** process_and_upload in closed form *)
(* The metadata of a submission whose strings hold no lone surrogate has
   a UTF-8 encoding: str.encode does not raise. *)
Lemma meta_encodable (w : world) (transcript : str) (speaker_id language : option str) :
  text (uuid4 (uuid_calls w)) -> text (App.REPO_SUBFOLDER environ) -> text transcript ->
  (forall s, speaker_id = Some s -> text s) -> (forall s, language = Some s -> text s) ->
  is_Some (utf8_encode (json_dumps (meta_of w transcript speaker_id language))).
Proof using Type.
  intros Hid Hsub Ht Hs Hl.
  apply TextFacts.utf8_encode_text, TextFacts.text_json_dumps.
  unfold App.meta_of, meta_dict, App.flac_path, App.timestamp_of.
  assert (forall o : option str, (forall s, o = Some s -> text s) ->
            match jopt o with JStr s => text s | JNull => True end) as Hopt
    by (intros [s|] H; cbn; [now apply H|exact I]).
  repeat (apply Forall_cons; split);
    [split; [apply TextFacts.text_lit|cbn [snd]] ..|apply Forall_nil].
  - exact Hid.
  - repeat (apply TextFacts.text_app; [first [assumption | apply TextFacts.text_lit]|]).
    apply TextFacts.text_lit.
  - exact Ht.
  - now apply Hopt.
  - now apply Hopt.
  - apply TextFacts.text_app; [apply text_isoformat|apply TextFacts.text_lit].
  - exact I.
Qed.

Lemma process_and_upload_run (arr : Samples) (sr : N) (transcript : str)
    (speaker_id language : option str) (w : world) :
  let k := upload_calls w in
  let flac := flac_path (uuid_calls w) in
  let json := json_path (uuid_calls w) in
  let buf := sf_write_flac arr sr in
  let f1 := faults_from k flac buf in
  let n1 := last_attempt f1 in
  let t1 := trace w ++ retry_trace flac f1 in
  process_and_upload arr sr transcript speaker_id language w =
    match f1 n1 with
    | Some e =>
        (Raises e,
         World (hub w) (S n1 + k) (S (uuid_calls w)) (S (clock_calls w)) t1)
    | None =>
        match utf8_encode (json_dumps (meta_of w transcript speaker_id language)) with
        | None =>
            (Raises (Exn "UnicodeEncodeError" (lit "surrogates not allowed")),
             World (<[flac := buf]> (hub w)) (S n1 + k) (S (uuid_calls w))
                   (S (clock_calls w)) t1)
        | Some mb =>
            let f2 := faults_from (S n1 + k) json mb in
            let n2 := last_attempt f2 in
            (match f2 n2 with
             | None => Returns (true, lit "Uploaded: " ++ uuid4 (uuid_calls w))
             | Some e => Raises e
             end,
             World (match f2 n2 with
                    | None => <[json := mb]> (<[flac := buf]> (hub w))
                    | Some _ => <[flac := buf]> (hub w)
                    end)
                   (S n2 + (S n1 + k)) (S (uuid_calls w)) (S (clock_calls w))
                   (t1 ++ retry_trace json f2))
        end
    end.
Proof using Type.
  cbv zeta. unfold App.process_and_upload, App.meta_of, App.timestamp_of, App.flac_path, App.json_path.
  unfold bind at 1. unfold uuid_uuid4. cbn [fst snd].
  unfold bind at 1. unfold datetime_utcnow. cbn [fst snd uuid_calls clock_calls].
  unfold bind at 1. rewrite safe_upload_run.
  cbn [hub upload_calls uuid_calls clock_calls trace].
  destruct (faults_from (upload_calls w) _ _ (last_attempt _)) as [e|]; [reflexivity|].
  unfold bind at 1. unfold str_encode_utf8.
  destruct (utf8_encode _) as [mb|]; [|reflexivity].
  unfold ret at 1. unfold bind at 1. rewrite safe_upload_run.
  cbn [hub upload_calls uuid_calls clock_calls trace].
  destruct (faults_from _ _ mb (last_attempt _)) as [e|]; reflexivity.
Qed.

(** C7. The sidecar of a submission whose uploads succeed is stored under
    <subfolder>/<id>.json as the UTF-8 encoding of json.dumps of a flat
    dict: decoding and reading it back gives exactly the keys id, audio,
    transcript, speaker_id, language, timestamp, with the submitted
    transcript unchanged.  In the text the transcript stands between
    quotes with only the quote, the backslash and the controls below
    0x20 escaped, so every non-ASCII character is there as itself.  The
    timestamp is the isoformat of the single utcnow reading of the call
    followed by Z, of the shape YYYY-MM-DDTHH:MM:SS[.ffffff]Z. *)
Theorem sidecar_is_flat_utf8_json (arr : Samples) (sr : N) (transcript : str)
    (speaker_id language : option str) (w : world) (meta_bytes : bytes) (n1 n2 : nat) :
  let id := uuid4 (uuid_calls w) in
  let flac := flac_path (uuid_calls w) in
  let json := json_path (uuid_calls w) in
  let meta := meta_of w transcript speaker_id language in
  let r := process_and_upload arr sr transcript speaker_id language w in
  succeeds_at (faults_from (upload_calls w) flac (sf_write_flac arr sr)) n1 ->
  utf8_encode (json_dumps meta) = Some meta_bytes ->
  succeeds_at (faults_from (S n1 + upload_calls w) json meta_bytes) n2 ->
  hub (snd r) !! json = Some meta_bytes
  /\ Forall (fun b => b < 256) meta_bytes
  /\ utf8_decode meta_bytes = Some (json_dumps meta)
  /\ parse_flat_object (json_dumps meta) = Some meta
  /\ map fst meta = [lit "id"; lit "audio"; lit "transcript"; lit "speaker_id";
                     lit "language"; lit "timestamp"]
  /\ map snd meta = [JStr id; JStr flac; JStr transcript; jopt speaker_id;
                     jopt language; JStr (timestamp_of w)]
  /\ (exists before after,
        json_dumps meta = before ++ encode_basestring transcript ++ after)
  /\ (forall s, Forall (fun c => 32 <= c /\ c <> 34 /\ c <> 92) s ->
                encode_basestring s = [34] ++ s ++ [34])
  /\ (forall c, 128 <= c -> escape_char c = [c])
  /\ timestamp_of w = isoformat (utcnow (clock_calls w)) ++ lit "Z"
  /\ clock_calls (snd r) = S (clock_calls w)
  /\ iso8601_utc (timestamp_of w) = true.
Proof using Type.
  cbv zeta. intros H1 Henc H2.
  rewrite process_and_upload_run. cbv zeta.
  destruct (succeeds_at_last _ _ H1) as [E1 E1']. rewrite E1', Henc, E1.
  destruct (succeeds_at_last _ _ H2) as [E2 E2']. rewrite E2'.
  cbn [fst snd hub clock_calls].
  split; [apply lookup_insert_eq|].
  split; [eapply Utf8Facts.utf8_encode_octets; eassumption|].
  split; [apply Utf8Facts.utf8_decode_encode; assumption|].
  split; [apply PyFacts.parse_json_dumps|].
  split; [reflexivity|]. split; [reflexivity|].
  split.
  { apply (PyFacts.json_dumps_contains _ (lit "transcript")).
    unfold App.meta_of, meta_dict. cbn. tauto. }
  split; [apply PyFacts.encode_basestring_verbatim|].
  split; [intros c Hc; apply PyFacts.escape_char_plain; lia|].
  split; [reflexivity|]. split; [reflexivity|].
  apply timestamp_shape.
Qed.


(** C10. In every run of process_and_upload all attempts for the audio
    blob come before any attempt for the sidecar, and the sidecar is only
    attempted once the audio blob is stored.  What a run stores is
    nothing, the audio blob alone, or the audio blob and then the
    sidecar: never the sidecar without the audio blob. *)
Theorem audio_stored_before_sidecar (arr : Samples) (sr : N) (transcript : str)
    (speaker_id language : option str) (w : world) :
  let flac := flac_path (uuid_calls w) in
  let json := json_path (uuid_calls w) in
  let buf := sf_write_flac arr sr in
  let r := process_and_upload arr sr transcript speaker_id language w in
  let new := drop (length (trace w)) (trace (snd r)) in
  flac <> json
  /\ exists n m,
       (1 <= n <= 3)%nat /\ (m <= 3)%nat
       /\ paths_attempted new = replicate n flac ++ replicate m json
       /\ ((paths_stored new = [] /\ m = 0%nat /\ hub (snd r) = hub w
            /\ exists e, fst r = Raises e)
           \/ (paths_stored new = [flac] /\ hub (snd r) = <[flac := buf]> (hub w)
               /\ exists e, fst r = Raises e)
           \/ (paths_stored new = [flac; json]
               /\ (exists meta_bytes,
                     hub (snd r) = <[json := meta_bytes]> (<[flac := buf]> (hub w)))
               /\ hub (snd r) !! flac = Some buf
               /\ fst r = Returns (true, lit "Uploaded: " ++ uuid4 (uuid_calls w)))).
Proof using Type.
  cbv zeta. split; [apply flac_json_distinct|].
  rewrite process_and_upload_run. cbv zeta.
  set (f1 := faults_from (upload_calls w) _ _).
  pose proof (last_attempt_bound f1) as B1.
  destruct (f1 (last_attempt f1)) as [e|] eqn:F1.
  { exists (S (last_attempt f1)), 0%nat. cbn [fst snd trace hub].
    rewrite drop_app_length, retry_trace_attempted, retry_trace_stored, F1, app_nil_r.
    repeat split; try lia. left. repeat split. eauto. }
  destruct (utf8_encode _) as [mb|].
  2:{ exists (S (last_attempt f1)), 0%nat. cbn [fst snd trace hub].
      rewrite drop_app_length, retry_trace_attempted, retry_trace_stored, F1, app_nil_r.
      repeat split; try lia. right. left. repeat split. eauto. }
  set (f2 := faults_from (S (last_attempt f1) + upload_calls w) _ mb).
  pose proof (last_attempt_bound f2) as B2.
  exists (S (last_attempt f1)), (S (last_attempt f2)). cbn [fst snd trace hub].
  rewrite <- app_assoc, drop_app_length, paths_attempted_app, paths_stored_app,
    !retry_trace_attempted, !retry_trace_stored, F1.
  split; [lia|]. split; [lia|]. split; [reflexivity|].
  destruct (f2 (last_attempt f2)) as [e|] eqn:F2.
  - right. left. repeat split. eauto.
  - right. right. split; [reflexivity|]. split; [eauto|]. split; [|reflexivity].
    rewrite lookup_insert_ne by (apply not_eq_sym, flac_json_distinct).
    apply lookup_insert_eq.
Qed.


(** ** on_submit *)

Section SubmitFacts.

Variable sf_read : str -> exn + Samples * N.

Local Abbreviation on_submit :=
  (App.on_submit sf_read sf_write_flac upload_fault uuid4 utcnow environ).

(* The outcome of an accepted submission whose audio file is read is that
   of process_and_upload. *)
Lemma on_submit_accepted (path transcript speaker_id language : str) (w : world)
    (arr : Samples) (sr : N) :
  truthy (strip transcript) = true -> sf_read path = inr (arr, sr) ->
  on_submit (Some path) transcript speaker_id language w =
    let r := process_and_upload arr sr transcript (Some speaker_id) (Some language) w in
    (match fst r with Returns v => Returns (snd v) | Raises e => Raises e end, snd r).
Proof using Type.
  intros Ht Hread. unfold App.on_submit. rewrite Ht, Hread. cbn [negb].
  unfold bind, ret.
  destruct (App.process_and_upload _ _ _ _ _ _ _ _ _ _ _) as [[v|e] w']; reflexivity.
Qed.

Lemma on_submit_valid (path transcript speaker_id language : str) (w : world) (c : N)
    (arr : Samples) (sr : N) :
  c ∈ transcript -> isspace c = false -> sf_read path = inr (arr, sr) ->
  on_submit (Some path) transcript speaker_id language w =
    let r := process_and_upload arr sr transcript (Some speaker_id) (Some language) w in
    (match fst r with Returns v => Returns (snd v) | Raises e => Raises e end, snd r).
Proof using Type.
  intros Hin Hc. apply on_submit_accepted. exact (strip_truthy _ _ Hin Hc).
Qed.

(* An accepted submission whose audio file cannot be read: the exception
   of sf.read leaves on_submit before anything else is done. *)
Lemma on_submit_unreadable (path transcript speaker_id language : str) (w : world)
    (e : exn) :
  truthy (strip transcript) = true -> sf_read path = inl e ->
  on_submit (Some path) transcript speaker_id language w = (Raises e, w).
Proof using Type.
  intros Ht Hread. unfold App.on_submit. now rewrite Ht, Hread.
Qed.

(* The strings on_submit can return. *)
Lemma on_submit_returned (audio_path : option str) (transcript speaker_id language : str)
    (w : world) (status : str) :
  fst (on_submit audio_path transcript speaker_id language w) = Returns status ->
  status = lit "Please record audio and type transcript."
  \/ status = lit "Uploaded: " ++ uuid4 (uuid_calls w).
Proof using Type.
  destruct audio_path as [path|]; [|cbn; intros [= <-]; now left].
  destruct (truthy (strip transcript)) eqn:Ht.
  2:{ unfold App.on_submit. rewrite Ht. cbn. intros [= <-]. now left. }
  destruct (sf_read path) as [e|[arr sr]] eqn:Hread.
  - rewrite (on_submit_unreadable _ _ _ _ _ _ Ht Hread). discriminate.
  - rewrite (on_submit_accepted _ _ _ _ _ _ _ Ht Hread). cbv zeta.
    rewrite process_and_upload_run. cbv zeta.
    repeat match goal with
           | |- context [match ?x with Some _ => _ | None => _ end] => destruct x
           end; cbn [fst snd]; try discriminate.
    intros [= <-]. now right.
Qed.

(** C2. When no audio was recorded, or the transcript is empty or consists
    of whitespace only, on_submit returns the validation message and the
    world is unchanged: no call of the Hub, nothing stored, no id drawn. *)
Theorem on_submit_rejects_invalid (audio_path : option str)
    (transcript speaker_id language : str) (w : world) :
  audio_path = None \/ Forall (fun c => isspace c = true) transcript ->
  on_submit audio_path transcript speaker_id language w =
    (Returns (lit "Please record audio and type transcript."), w).
Proof using Type.
  intros [-> | Hws]; [reflexivity|].
  unfold App.on_submit. rewrite (strip_whitespace_only _ Hws). cbn.
  destruct audio_path; reflexivity.
Qed.

(** C3. A submission with a recorded audio file and a transcript holding
    a character that is not whitespace, whose two uploads each succeed
    within their three attempts, draws exactly one id, stores exactly two
    objects, first <subfolder>/<id>.flac and then <subfolder>/<id>.json
    (the subfolder is "data" unless HF_REPO_SUBFOLDER is set), the audio
    field read back from the stored JSON is the path of the stored audio
    blob, and on_submit returns "Uploaded: <id>".  The audio file is one
    that sf.read reads: [arr] and [sr] are what it returns. *)
Theorem on_submit_stores_record_pair (path transcript speaker_id language : str)
    (w : world) (c : N) (arr : Samples) (sr : N) (meta_bytes : bytes) (n1 n2 : nat) :
  let id := uuid4 (uuid_calls w) in
  let flac := flac_path (uuid_calls w) in
  let json := json_path (uuid_calls w) in
  let buf := sf_write_flac arr sr in
  let r := on_submit (Some path) transcript speaker_id language w in
  let new := drop (length (trace w)) (trace (snd r)) in
  c ∈ transcript -> isspace c = false ->
  sf_read path = inr (arr, sr) ->
  succeeds_at (faults_from (upload_calls w) flac buf) n1 ->
  utf8_encode (json_dumps (meta_of w transcript (Some speaker_id) (Some language)))
    = Some meta_bytes ->
  succeeds_at (faults_from (S n1 + upload_calls w) json meta_bytes) n2 ->
  fst r = Returns (lit "Uploaded: " ++ id)
  /\ uuid_calls (snd r) = S (uuid_calls w)
  /\ paths_stored new = [flac; json]
  /\ hub (snd r) = <[json := meta_bytes]> (<[flac := buf]> (hub w))
  /\ (exists text d,
        utf8_decode meta_bytes = Some text /\ parse_flat_object text = Some d
        /\ jlookup d (lit "audio") = Some (JStr flac)
        /\ jlookup d (lit "id") = Some (JStr id))
  /\ (hub w !! flac = None -> hub w !! json = None ->
      dom (hub (snd r)) = {[flac; json]} ∪ dom (hub w)
      /\ size (hub (snd r)) = (2 + size (hub w))%nat)
  /\ (environ !! lit "HF_REPO_SUBFOLDER" = None ->
      flac = lit "data" ++ lit "/" ++ id ++ lit ".flac"
      /\ json = lit "data" ++ lit "/" ++ id ++ lit ".json").
Proof using Type.
  cbv zeta. intros Hin Hc Hread H1 Henc H2.
  rewrite (on_submit_valid _ _ _ _ _ _ _ _ Hin Hc Hread). cbv zeta.
  rewrite process_and_upload_run. cbv zeta.
  destruct (succeeds_at_last _ _ H1) as [E1 E1']. rewrite E1', Henc, E1.
  destruct (succeeds_at_last _ _ H2) as [E2 E2']. rewrite E2'.
  cbn [fst snd trace hub uuid_calls].
  rewrite <- app_assoc, drop_app_length.
  split; [reflexivity|]. split; [reflexivity|].
  split.
  { rewrite paths_stored_app, !retry_trace_stored, E1', E2'. reflexivity. }
  split; [reflexivity|].
  split.
  { eexists _, _. split; [apply Utf8Facts.utf8_decode_encode; eassumption|].
    split; [apply PyFacts.parse_json_dumps|]. split; reflexivity. }
  split.
  { intros Hf Hj. split.
    - rewrite !dom_insert_L. apply set_eq. intros x.
      rewrite !elem_of_union, !elem_of_singleton. tauto.
    - rewrite map_size_insert_None, map_size_insert_None; [reflexivity|assumption|].
      rewrite lookup_insert_ne; [assumption|]. apply flac_json_distinct. }
  intros Henv. unfold App.flac_path, App.json_path, App.REPO_SUBFOLDER.
  rewrite Henv. split; reflexivity.
Qed.

(** C8, as the code has it.  For a submission that passes the check and
    whose audio file sf.read reads, when the retry budget of an upload is
    exhausted on_submit returns no status string: the exception of the
    third attempt propagates to the caller of on_submit.  If it was the
    audio upload nothing was stored; if it was the sidecar upload the
    audio blob stays in the repository.  Whatever the submission, a status
    string that on_submit returns is the validation message or the success
    message with the record id: there is no other. *)
Theorem on_submit_upload_failure_propagates (path transcript speaker_id language : str)
    (w : world) (c : N) (arr : Samples) (sr : N) :
  let flac := flac_path (uuid_calls w) in
  let json := json_path (uuid_calls w) in
  let buf := sf_write_flac arr sr in
  let r := on_submit (Some path) transcript speaker_id language w in
  c ∈ transcript -> isspace c = false ->
  sf_read path = inr (arr, sr) ->
  (forall e0 e1 e2,
     let f1 := faults_from (upload_calls w) flac buf in
     f1 0%nat = Some e0 -> f1 1%nat = Some e1 -> f1 2%nat = Some e2 ->
     fst r = Raises e2 /\ hub (snd r) = hub w)
  /\ (forall n1 meta_bytes e0 e1 e2,
     let f2 := faults_from (S n1 + upload_calls w) json meta_bytes in
     succeeds_at (faults_from (upload_calls w) flac buf) n1 ->
     utf8_encode (json_dumps (meta_of w transcript (Some speaker_id) (Some language)))
       = Some meta_bytes ->
     f2 0%nat = Some e0 -> f2 1%nat = Some e1 -> f2 2%nat = Some e2 ->
     fst r = Raises e2 /\ hub (snd r) = <[flac := buf]> (hub w))
  /\ (forall audio_path' transcript' speaker_id' language' w' status,
     fst (on_submit audio_path' transcript' speaker_id' language' w') = Returns status ->
     status = lit "Please record audio and type transcript."
     \/ status = lit "Uploaded: " ++ uuid4 (uuid_calls w')).
Proof using Type.
  cbv zeta. intros Hin Hc Hread.
  split; [|split; [|intros; eapply on_submit_returned; eassumption]];
    rewrite (on_submit_valid _ _ _ _ _ _ _ _ Hin Hc Hread); cbv zeta;
    rewrite process_and_upload_run; cbv zeta.
  - intros e0 e1 e2 H0 H1 H2.
    assert (last_attempt (faults_from (upload_calls w) (flac_path (uuid_calls w))
              (sf_write_flac arr sr)) = 2%nat) as E
      by (unfold last_attempt; now rewrite H0, H1).
    rewrite E, H2. split; reflexivity.
  - intros n1 mb e0 e1 e2 Hs Henc H0 H1 H2.
    destruct (succeeds_at_last _ _ Hs) as [E1 E1']. rewrite E1', Henc, E1.
    assert (last_attempt (faults_from (S n1 + upload_calls w) (json_path (uuid_calls w)) mb)
            = 2%nat) as E
      by (unfold last_attempt; now rewrite H0, H1).
    rewrite E, H2. split; reflexivity.
Qed.


End SubmitFacts.

End PipelineFacts.

(** ** Instances *)



Lemma safe_upload_retry_budget_witness :
  fst (App.safe_upload (failing_first 2) [1; 2; 3] (lit "data/x.flac") world0) = Returns tt.
Proof.
  pose proof (safe_upload_retry_budget (failing_first 2) [1; 2; 3] (lit "data/x.flac") world0)
    as (_ & H & _).
  apply (H http_error http_error); reflexivity.
Defined.

Lemma on_submit_rejects_invalid_witness :
  App.on_submit sample_read sample_write (failing_first 0) sample_uuid4 sample_utcnow ∅
    (Some (lit "rec.wav")) (lit "  ") (lit "spk1") (lit "en") world0
  = (Returns (lit "Please record audio and type transcript."), world0).
Proof.
  apply on_submit_rejects_invalid. right. repeat constructor.
Defined.

Lemma on_submit_stores_record_pair_witness :
  fst (App.on_submit sample_read sample_write (failing_first 2) sample_uuid4 sample_utcnow ∅
         (Some (lit "rec.wav")) (lit "hello world") (lit "spk1") (lit "en") world0)
  = Returns (lit "Uploaded: " ++ sample_uuid4 0).
Proof.
  refine (proj1 (on_submit_stores_record_pair sample_write (failing_first 2)
                   sample_uuid4 sample_utcnow ∅ sample_read (lit "rec.wav") (lit "hello world")
                   (lit "spk1") (lit "en") world0 104 (lit "rec.wav") 16000 hello_bytes 2 0
                   _ _ _ _ _ _)).
  - left.
  - reflexivity.
  - reflexivity.
  - apply succeeds_at_third; [vm_compute; eauto|vm_compute; eauto|reflexivity].
  - vm_compute. reflexivity.
  - apply succeeds_at_once. reflexivity.
Defined.

Lemma sidecar_is_flat_utf8_json_witness :
  hub (snd (App.process_and_upload sample_write (failing_first 0) sample_uuid4 sample_utcnow ∅
              (lit "rec.wav") 16000 (lit "hello world") (Some (lit "spk1"))
              (Some (lit "en")) world0))
  !! App.json_path sample_uuid4 ∅ 0 = Some hello_bytes.
Proof.
  refine (proj1 (sidecar_is_flat_utf8_json sample_write (failing_first 0) sample_uuid4
                   sample_utcnow ∅ (lit "rec.wav") 16000 (lit "hello world")
                   (Some (lit "spk1")) (Some (lit "en")) world0 hello_bytes 0 0 _ _ _)).
  - apply succeeds_at_once. reflexivity.
  - vm_compute. reflexivity.
  - apply succeeds_at_once. reflexivity.
Defined.

(* C8 as stated fails: with a Hub that refuses every call the valid
   submission of the scenario gets no status string back, on_submit
   raises. *)
Lemma exhausted_upload_returns_no_status :
  let r := App.on_submit sample_read sample_write (failing_first 3) sample_uuid4
             sample_utcnow ∅ (Some (lit "rec.wav")) (lit "hello world") (lit "spk1")
             (lit "en") world0 in
  length (paths_attempted (trace (snd r))) = 3%nat
  /\ fst r = Raises http_error
  /\ ~ exists status, fst r = Returns status.
Proof.
  cbv zeta.
  assert (fst (App.on_submit sample_read sample_write (failing_first 3) sample_uuid4
                 sample_utcnow ∅ (Some (lit "rec.wav")) (lit "hello world") (lit "spk1")
                 (lit "en") world0) = Raises http_error) as E by (vm_compute; reflexivity).
  split; [vm_compute; reflexivity|]. split; [exact E|].
  intros [status H]. rewrite E in H. discriminate H.
Qed.

Lemma on_submit_upload_failure_propagates_witness :
  fst (App.on_submit sample_read sample_write (failing_first 3) sample_uuid4
         sample_utcnow ∅ (Some (lit "rec.wav")) (lit "hello world") (lit "spk1")
         (lit "en") world0) = Raises http_error.
Proof.
  refine (proj1 (proj1 (on_submit_upload_failure_propagates sample_write
                          (failing_first 3) sample_uuid4 sample_utcnow ∅ sample_read (lit "rec.wav")
                          (lit "hello world") (lit "spk1") (lit "en") world0 104
                          (lit "rec.wav") 16000 _ _ _)
                   http_error http_error http_error _ _ _)).
  - left.
  - reflexivity.
  - reflexivity.
  - reflexivity.
  - reflexivity.
  - reflexivity.
Defined.



End AppSpec.

(** * Verification of the materialization pass *)

Module CastingSpec.
Import Py Eff Casting CastingNotions.

(** ** Loops *)

Lemma for_each_app {W A S} (body : S -> A -> M W S) (s : S) (l1 l2 : list A) (w : W) :
  for_each body s (l1 ++ l2) w =
    bind (for_each body s l1) (fun s' => for_each body s' l2) w.
Proof.
  revert s w. induction l1 as [|x l1 IH]; intros s w; [reflexivity|].
  cbn [app for_each]. unfold bind.
  destruct (body s x w) as [[s1|e] w1]; [|reflexivity].
  rewrite IH. reflexivity.
Qed.

(** ** The DatasetDict as a dict *)

Lemma getitem_setitem_eq (d : dataset_dict) (k : str) (v : dataset) :
  getitem (setitem d k v) k = Some v.
Proof.
  induction d as [|[k' v'] d IH]; cbn.
  - now rewrite bool_decide_eq_true_2.
  - destruct (bool_decide_reflect (k' = k)) as [->|Hne]; cbn.
    + now rewrite bool_decide_eq_true_2.
    + now rewrite bool_decide_eq_false_2.
Qed.

Lemma getitem_setitem_ne (d : dataset_dict) (k k' : str) (v : dataset) :
  k' <> k -> getitem (setitem d k v) k' = getitem d k'.
Proof.
  intros Hne. induction d as [|[k1 v1] d IH]; cbn.
  - rewrite bool_decide_eq_false_2 by congruence. reflexivity.
  - destruct (bool_decide_reflect (k1 = k)) as [->|Hne1]; cbn.
    + rewrite !bool_decide_eq_false_2 by congruence. reflexivity.
    + now rewrite IH.
Qed.

Lemma keys_setitem (d : dataset_dict) (k : str) (v : dataset) :
  is_Some (getitem d k) -> keys (setitem d k v) = keys d.
Proof.
  induction d as [|[k1 v1] d IH]; cbn; intros [x Hx]; [discriminate|].
  destruct (bool_decide_reflect (k1 = k)) as [->|Hne1]; cbn; [reflexivity|].
  f_equal. apply IH. eauto.
Qed.

Lemma getitem_is_Some (d : dataset_dict) (k : str) :
  is_Some (getitem d k) <-> k ∈ keys d.
Proof.
  induction d as [|[k1 v1] d IH]; cbn.
  - split; [intros [? ?]; discriminate|intros H; inversion H].
  - rewrite elem_of_cons.
    destruct (bool_decide_reflect (k1 = k)) as [->|Hne1].
    + split; eauto.
    + rewrite IH. split; [tauto|]. intros [E|H]; [congruence|assumption].
Qed.

(* Two dicts with the same keys, in the same order and without
   repetition, and the same values are the same dict. *)
Lemma dict_ext (d1 d2 : dataset_dict) :
  NoDup (keys d1) -> keys d1 = keys d2 ->
  (forall k, getitem d1 k = getitem d2 k) -> d1 = d2.
Proof.
  revert d2. induction d1 as [|[k1 v1] d1 IH]; intros [|[k2 v2] d2] Hnd Hk Hget;
    try discriminate; [reflexivity|].
  cbn in Hk. injection Hk as -> Hk.
  apply NoDup_cons in Hnd as [Hnotin Hnd].
  pose proof (Hget k2) as H2. cbn in H2. rewrite !bool_decide_eq_true_2 in H2 by reflexivity.
  injection H2 as ->. f_equal. apply IH; [assumption|assumption|].
  intros k. pose proof (Hget k) as Hk'. cbn in Hk'.
  destruct (bool_decide_reflect (k2 = k)) as [E|Hne]; [subst k|assumption].
  destruct (getitem d1 k2) eqn:E1.
  { exfalso. apply Hnotin, getitem_is_Some. eauto. }
  destruct (getitem d2 k2) eqn:E2; [|reflexivity].
  exfalso. apply Hnotin. change (k2 ∈ keys d1). change (keys d1 = keys d2) in Hk.
  rewrite Hk. apply getitem_is_Some. eauto.
Qed.

(* Applying [g] to every split. *)
Lemma keys_map_splits (g : str -> dataset -> dataset) (ds : dataset_dict) :
  keys (map_splits g ds) = keys ds.
Proof. unfold keys, map_splits. rewrite map_map. reflexivity. Qed.

Lemma getitem_map_splits (g : str -> dataset -> dataset) (ds : dataset_dict) (k : str) :
  getitem (map_splits g ds) k = g k <$> getitem ds k.
Proof.
  induction ds as [|[k1 v1] ds IH]; [reflexivity|]. cbn.
  destruct (bool_decide_reflect (k1 = k)) as [->|Hne]; [reflexivity|assumption].
Qed.

Section MaterializationFacts.

Variable cwd : str.
Variable download_fault : nat -> str -> option exn.
Variable copy_fault : nat -> str -> str -> option exn.
Variable push_fault : nat -> str -> dataset -> option exn.


Local Abbreviation resolve := (Casting.resolve cwd).
Local Abbreviation download_row := (Casting.download_row cwd download_fault).
Local Abbreviation download_records := (Casting.download_records cwd download_fault).
Local Abbreviation download_pass := (Casting.download_pass cwd download_fault).
Local Abbreviation fetch_of := (Casting.fetch_of cwd download_fault).
Local Abbreviation rewrite_row := (Casting.rewrite_row cwd copy_fault).
Local Abbreviation rewrite_pass := (Casting.rewrite_pass cwd copy_fault).
Local Abbreviation expected_cwd_path_of := (Casting.expected_cwd_path_of cwd).
Local Abbreviation materialize := (Casting.materialize cwd download_fault copy_fault).
Local Abbreviation push_failure := (Casting.push_failure cwd push_fault).
Local Abbreviation push_pass := (Casting.push_pass cwd push_fault).
Local Abbreviation push_all := (Casting.push_all cwd push_fault).
Local Abbreviation push_to_hub := (Casting.push_to_hub cwd push_fault).
Local Abbreviation push_split := (Casting.push_split cwd push_fault).
Local Abbreviation cleanup := (Casting.cleanup cwd).

(** ** The download pass *)

Lemma download_row_run (split : str) (dp : gmap str str) (r : row) (w : world) :
  exists w',
    download_row split dp r w =
      (Returns match fetch_of w r with
               | Cached =>
                   <[path_key split (audio r) := local_cache_path_of (audio r)]> dp
               | Downloaded =>
                   <[path_key split (audio r) :=
                       abspath cwd (path_join REPO_LOCAL_STORAGE (audio r))]> dp
               | Failed _ => dp
               end, w')
    /\ trace w `prefix_of` trace w'
    /\ (forall e, fetch_of w r = Failed e ->
          Stdout (lit "CRITICAL DOWNLOAD FAILED: " ++ audio r) ∈ trace w').
Proof using Type.
  unfold Casting.download_row, Casting.fetch_of.
  unfold bind at 1. unfold os_makedirs at 1, modify at 1. cbn [fst snd].
  set (w1 := with_fs _ w).
  assert (trace w1 = trace w) as Ht1 by reflexivity.
  unfold bind at 1. unfold os_path_exists at 1. cbn [fst snd].
  change (Casting.os_makedirs cwd _ w).2 with w1.
  destruct (bool_decide _) eqn:Hc; cbn [negb].
  { exists w1. split; [reflexivity|]. rewrite Ht1. split; [reflexivity|]. intros; discriminate. }
  unfold try_except, bind, hf_hub_download, ret, print, modify, emit.
  cbn [download_calls fs remote copy_calls push_calls trace fst snd].
  destruct (download_fault (download_calls w1) (audio r)) as [e|];
    cbn [download_calls fs remote copy_calls push_calls trace fst snd].
  - eexists. split; [reflexivity|]. cbn [trace]. rewrite Ht1. split.
    + rewrite <- !app_assoc. now apply prefix_app_r.
    + intros ? _. rewrite !elem_of_app, !list_elem_of_singleton. tauto.
  - eexists. split; [reflexivity|]. cbn [trace with_fs]. rewrite Ht1. split.
    + now apply prefix_app_r.
    + intros; discriminate.
Qed.

Lemma download_records_run (dp : gmap str str) (items : list (str * row)) (w : world) :
  exists dp' w',
    download_records dp items w = (Returns dp', w')
    /\ trace w `prefix_of` trace w'
    /\ dom dp ⊆ dom dp'
    /\ dom dp' ⊆ dom dp ∪ list_to_set (map key_of items).
Proof using Type.
  revert dp w. induction items as [|[split r] items IH]; intros dp w.
  - exists dp, w. split; [reflexivity|]. split; [reflexivity|]. split; set_solver.
  - unfold Casting.download_records. cbn [for_each fst snd]. unfold bind at 1.
    destruct (download_row_run split dp r w) as (w1 & -> & Hp & _).
    set (dp1 := match fetch_of w r with Cached => _ | Downloaded => _ | Failed _ => _ end).
    destruct (IH dp1 w1) as (dp' & w' & Hrun & Hp' & Hsub & Hsup).
    unfold Casting.download_records in Hrun. rewrite Hrun.
    exists dp', w'. split; [reflexivity|]. split; [etransitivity; eassumption|].
    assert (dom dp ⊆ dom dp1 /\ dom dp1 ⊆ dom dp ∪ {[path_key split (audio r)]}) as [H1 H2].
    { subst dp1. destruct (fetch_of w r); rewrite ?dom_insert; set_solver. }
    cbn [map list_to_set]. unfold key_of at 1. cbn [fst snd]. split; set_solver.
Qed.

(* The record reached after [before]: whether its key ends up in
   downloaded_paths, and what is printed. *)
Lemma download_records_at (before after : list (str * row)) (split : str) (r : row)
    (w : world) :
  exists dp1 w1 dp w',
    download_records ∅ before w = (Returns dp1, w1)
    /\ download_records ∅ (before ++ (split, r) :: after) w = (Returns dp, w')
    /\ (fetch_of w1 r = Cached \/ fetch_of w1 r = Downloaded ->
        is_Some (dp !! path_key split (audio r)))
    /\ (forall e, fetch_of w1 r = Failed e ->
        Stdout (lit "CRITICAL DOWNLOAD FAILED: " ++ audio r) ∈ trace w'
        /\ fst (download_records ∅ (before ++ [(split, r)]) w) = Returns dp1
        /\ (path_key split (audio r) ∉ map key_of (before ++ after) ->
            dp !! path_key split (audio r) = None)).
Proof using Type.
  destruct (download_records_run ∅ before w) as (dp1 & w1 & Hrun1 & _ & _ & Hsup1).
  destruct (download_row_run split dp1 r w1) as (w2 & Hrow & _ & Hlog).
  set (dp2 := match fetch_of w1 r with Cached => _ | Downloaded => _ | Failed _ => _ end)
    in Hrow.
  destruct (download_records_run dp2 after w2) as (dp & w' & Hrun & Hp & Hsub & Hsup).
  assert (forall rest dpr wr,
            download_records dp2 rest w2 = (Returns dpr, wr) ->
            download_records ∅ (before ++ (split, r) :: rest) w = (Returns dpr, wr)) as Hcat.
  { intros rest dpr wr Hrest. unfold Casting.download_records in *.
    rewrite for_each_app. unfold bind at 1. rewrite Hrun1.
    cbn [for_each fst snd]. unfold bind at 1. rewrite Hrow. exact Hrest. }
  exists dp1, w1, dp, w'. split; [exact Hrun1|]. split; [now apply Hcat|]. split.
  - intros Hok. apply elem_of_dom, Hsub. subst dp2.
    destruct Hok as [-> | ->]; rewrite dom_insert; set_solver.
  - intros e He. split; [|split].
    + destruct Hp as [t ->]. apply elem_of_app. left. eauto.
    + rewrite (Hcat [] dp2 w2 eq_refl). subst dp2. rewrite He. reflexivity.
    + intros Hnew. apply not_elem_of_dom. intros Hin. apply Hnew.
      rewrite map_app, elem_of_app.
      apply Hsup in Hin. subst dp2. rewrite He in Hin.
      apply elem_of_union in Hin as [Hin|Hin].
      * apply Hsup1 in Hin. left. set_solver.
      * right. set_solver.
Qed.

Lemma getitem_middle (pre suf : dataset_dict) (k : str) (d : dataset) :
  k ∉ keys pre -> getitem (pre ++ (k, d) :: suf) k = Some d.
Proof using Type.
  induction pre as [|[k1 v1] pre IH]; cbn; intros Hk.
  - now rewrite bool_decide_eq_true_2.
  - apply not_elem_of_cons in Hk as [Hne Hk].
    rewrite bool_decide_eq_false_2 by congruence. now apply IH.
Qed.

(* With distinct split names the nested loops visit [records ds]. *)
Lemma download_pass_records (ds : dataset_dict) (w : world) :
  NoDup (keys ds) -> download_pass ds w = download_records ∅ (records ds) w.
Proof using Type.
  intros Hnd. unfold Casting.download_pass.
  enough (forall pre suf dp w, ds = pre ++ suf ->
            for_each (fun downloaded_paths split =>
                        bind (subscript ds split)
                          (fun d => for_each (download_row split) downloaded_paths (rows d)))
              dp (keys suf) w
            = download_records dp (records suf) w) as H
    by (apply (H [] ds); reflexivity).
  intros pre suf. revert pre. induction suf as [|[k d] suf IH]; intros pre dp w0 E.
  - reflexivity.
  - cbn [keys map for_each fst]. unfold bind at 1. unfold bind at 1.
    unfold subscript. rewrite E, getitem_middle.
    2:{ rewrite E in Hnd. unfold keys in Hnd. rewrite map_app in Hnd.
        apply NoDup_app in Hnd as (_ & Hd & _). intros Hin. apply (Hd _ Hin). left. }
    rewrite <- E. unfold ret at 1.
    unfold records. cbn [flat_map fst snd]. fold (records suf).
    unfold Casting.download_records. rewrite for_each_app. unfold bind at 2.
    assert (forall dp w, for_each (fun dp0 item => download_row item.1 dp0 item.2) dp
                           (map (pair k) (rows d)) w
                         = for_each (download_row k) dp (rows d) w) as Hin.
    { intros dp' w'. revert dp' w'. induction (rows d) as [|r l IHl]; intros dp' w';
        [reflexivity|]. cbn [map for_each fst snd]. unfold bind.
      destruct (download_row k dp' r w') as [[?|?] ?]; [apply IHl|reflexivity]. }
    rewrite Hin.
    destruct (for_each (download_row k) dp (rows d) w0) as [[dp1|e] w1]; [|reflexivity].
    specialize (IH (pre ++ [(k, d)]) dp1 w1).
    rewrite <- app_assoc in IH. specialize (IH E).
    unfold Casting.download_records in IH. exact IH.
Qed.
(** ** The rewrite pass *)

Lemma copy_block_returns (src dst : str) (msg : exn -> str) (w : world) :
  exists w',
    try_except (bind (os_makedirs cwd (dirname dst))
                  (fun _ => shutil_copy2 cwd copy_fault src dst))
      (fun copy_e => print (msg copy_e)) w = (Returns tt, w')
    /\ trace w `prefix_of` trace w'.
Proof using Type.
  unfold try_except, bind, os_makedirs, shutil_copy2, modify, print, emit.
  cbn [fst snd fs copy_calls with_fs trace].
  match goal with |- context [match ?f with Some _ => _ | None => _ end] =>
    destruct f as [e|] end.
  - eexists. split; [reflexivity|]. cbn [trace]. rewrite <- app_assoc. now apply prefix_app_r.
  - eexists. split; [reflexivity|]. cbn [trace with_fs]. now apply prefix_app_r.
Qed.

(* The rewrite loop over records of a split: each record whose key is in
   downloaded_paths gets its copy attempt, and the assignment of line 117
   goes to a dict of its own, so the splits are what they were. *)
Lemma rewrite_rows_run (dp : gmap str str) (split : str) (items : list (nat * row))
    (updated : dataset_dict) (d : dataset) (w : world) :
  getitem updated split = Some d ->
  (forall i r, (i, r) ∈ items -> is_Some (rows d !! i)) ->
  exists w',
    for_each (rewrite_row dp split) updated items w = (Returns updated, w')
    /\ trace w `prefix_of` trace w'.
Proof using Type.
  intros Hget. revert w. induction items as [|[i r] items IH]; intros w Hin.
  - exists w. split; reflexivity.
  - cbn [for_each]. unfold bind at 1. unfold Casting.rewrite_row at 1.
    destruct (IH) with (w := w) as (w0 & Hrun0 & Hp0);
      [intros j x Hx; apply (Hin j x); now right|].
    destruct (dp !! path_key split (audio r)) as [src|] eqn:Hdp.
    + unfold bind at 1.
      destruct (copy_block_returns src (expected_cwd_path_of (audio r))
                  (fun copy_e => lit "WARNING: Failed to copy file to CWD: "
                                 ++ expected_cwd_path_of (audio r)
                                 ++ lit ". Push may fail. Details: " ++ exn_msg copy_e) w)
        as (w1 & Hcopy & Hp1).
      rewrite Hcopy.
      unfold bind at 1. unfold assign_audio, bind at 1, subscript. rewrite Hget.
      unfold ret at 1.
      destruct (Hin i r) as [x Hx]; [left|]. rewrite Hx. unfold ret at 1. unfold ret at 1.
      destruct (IH w1) as (w' & Hrun & Hp); [intros j y Hy; apply (Hin j y); now right|].
      rewrite Hrun. exists w'. split; [reflexivity|]. etransitivity; eassumption.
    + unfold ret at 1. exists w0. split; assumption.
Qed.

Lemma rewrite_pass_run (dp : gmap str str) (ds : dataset_dict) (w : world) :
  exists w', rewrite_pass dp ds w = (Returns ds, w') /\ trace w `prefix_of` trace w'.
Proof using Type.
  unfold Casting.rewrite_pass.
  assert (forall ks w0, (forall k, k ∈ ks -> is_Some (getitem ds k)) ->
            exists w',
              for_each
                (fun updated split =>
                   bind (subscript updated split)
                     (fun d => for_each (rewrite_row dp split) updated (imap pair (rows d))))
                ds ks w0 = (Returns ds, w')
              /\ trace w0 `prefix_of` trace w') as Hloop.
  { intros ks. induction ks as [|k ks IH]; intros w0 Hin.
    - exists w0. split; reflexivity.
    - cbn [for_each]. unfold bind at 1. unfold bind at 1. unfold subscript at 1.
      destruct (Hin k) as [d Hd]; [left|]. rewrite Hd. unfold ret at 1.
      destruct (rewrite_rows_run dp k (imap pair (rows d)) ds d w0 Hd) as (w1 & -> & Hp1).
      { intros i r Hir. apply elem_of_lookup_imap in Hir as (j & y & [= -> ->] & Hy). eauto. }
      destruct (IH w1) as (w' & -> & Hp); [intros k' Hk'; apply Hin; now right|].
      exists w'. split; [reflexivity|]. etransitivity; eassumption. }
  apply Hloop. intros k. apply getitem_is_Some.
Qed.

Lemma for_each_keys (body : dataset_dict -> str -> M world dataset_dict)
    (g : str -> dataset -> dataset) :
  (forall updated k d w, getitem updated k = Some d ->
     exists updated1 w1,
       body updated k w = (Returns updated1, w1)
       /\ keys updated1 = keys updated
       /\ getitem updated1 k = Some (g k d)
       /\ (forall k', k' <> k -> getitem updated1 k' = getitem updated k')
       /\ trace w `prefix_of` trace w1) ->
  forall ks updated w,
    NoDup ks -> (forall k, k ∈ ks -> is_Some (getitem updated k)) ->
    exists updated' w',
      for_each body updated ks w = (Returns updated', w')
      /\ keys updated' = keys updated
      /\ (forall k, getitem updated' k
                    = if bool_decide (k ∈ ks) then g k <$> getitem updated k
                      else getitem updated k)
      /\ trace w `prefix_of` trace w'.
Proof using Type.
  intros Hbody ks. induction ks as [|k ks IH]; intros updated w Hnd Hin.
  - exists updated, w. split; [reflexivity|]. split; [reflexivity|].
    split; [|reflexivity]. intros k. rewrite bool_decide_eq_false_2; [reflexivity|].
    apply not_elem_of_nil.
  - apply NoDup_cons in Hnd as [Hk Hnd].
    destruct (Hin k) as [d Hd]; [left|].
    destruct (Hbody updated k d w Hd) as (u1 & w1 & Hrun1 & Hk1 & Hg1 & Ho1 & Hp1).
    destruct (IH u1 w1 Hnd) as (u' & w' & Hrun & Hk' & Hg' & Hp').
    { intros k' Hk'. rewrite Ho1; [apply Hin; now right|]. intros ->. contradiction. }
    exists u', w'. cbn [for_each]. unfold bind. rewrite Hrun1, Hrun.
    split; [reflexivity|]. split; [congruence|]. split; [|etransitivity; eassumption].
    intros k'. rewrite Hg'.
    destruct (decide (k' = k)) as [->|Hne].
    + rewrite bool_decide_eq_false_2 by assumption.
      rewrite bool_decide_eq_true_2 by left. now rewrite Hg1, Hd.
    + rewrite Ho1 by assumption.
      destruct (bool_decide_reflect (k' ∈ ks)) as [Hks|Hks].
      * rewrite bool_decide_eq_true_2 by (now right). reflexivity.
      * rewrite bool_decide_eq_false_2; [reflexivity|].
        intros [?|?]%elem_of_cons; contradiction.
Qed.

Lemma cast_pass_run (ds : dataset_dict) (w : world) :
  NoDup (keys ds) ->
  cast_pass ds w = (Returns (cast_all ds), w).
Proof using Type.
  intros Hnd. unfold cast_pass, cast_all.
  destruct (for_each_keys
              (fun updated split =>
                 bind (subscript updated split)
                   (fun d => ret (setitem updated split (cast_column_audio d))))
              (fun _ d => cast_column_audio d)) with (ks := keys ds) (updated := ds) (w := w)
    as (u & w' & Hrun & Hk & Hg & _).
  - intros updated k d w0 Hd. unfold bind, subscript, ret. rewrite Hd.
    eexists _, _. split; [reflexivity|].
    split; [apply keys_setitem; eauto|].
    split; [apply getitem_setitem_eq|].
    split; [|reflexivity]. intros k' Hne. now apply getitem_setitem_ne.
  - assumption.
  - intros k. apply getitem_is_Some.
  - assert (w' = w) as ->.
    { clear Hk Hg. revert Hrun. generalize (keys ds). generalize ds at 1.
      intros u0 ks. revert u0. induction ks as [|k ks IH]; intros u0; cbn [for_each].
      - intros [= _ <-]. reflexivity.
      - unfold bind at 1. unfold bind at 1. unfold subscript.
        destruct (getitem u0 k); [|discriminate]. unfold ret at 1. unfold ret at 1. apply IH. }
    rewrite Hrun. do 2 f_equal. apply dict_ext.
    + now rewrite Hk.
    + now rewrite Hk, keys_map_splits.
    + intros k. rewrite Hg, getitem_map_splits.
      destruct (bool_decide_reflect (k ∈ keys ds)) as [Hin|Hout]; [reflexivity|].
      destruct (getitem ds k) eqn:E; [|reflexivity].
      exfalso. apply Hout, getitem_is_Some. eauto.
Qed.

(* Line 49: dataset.features raises, the download loop is not entered and
   nothing catches the exception. *)
Lemma materialize_run (ds : dataset_dict) (w : world) :
  materialize ds w
  = (Raises no_features,
     emit (Stdout (lit "Downloading audio files temporarily for casting...")) w).
Proof using Type. reflexivity. Qed.

(** ** The push *)







(** ** The whole pass *)

Lemma cleanup_run (w : world) :
  Casting.cleanup cwd w =
    (Returns tt,
     emit (Stdout (lit "Temporary files cleaned up."))
       (with_fs (filter (fun q => ~ resolve LOCAL_CWD_DATA_DIR `prefix_of` q)
                   (filter (fun q => ~ resolve REPO_SUBFOLDER `prefix_of` q) (fs w))) w)).
Proof using Type. reflexivity. Qed.

Lemma trace_download_start (w : world) :
  trace (download_start cwd w)
  = trace w ++ [Stdout (lit "Attempting to load dataset: " ++ REPO_ID);
                Stdout (lit "Downloading audio files temporarily for casting...")].
Proof using Type.
  unfold download_start, load_start, bind, os_makedirs, print, modify, emit.
  cbn [fst snd trace with_fs]. now rewrite <- app_assoc.
Qed.

(* When the dataset loads, the pass ends at line 49. *)
Lemma process_dataset_loaded (ds : dataset_dict) (w : world) :
  process_dataset cwd (inr ds) download_fault copy_fault push_fault w
  = (Raises no_features, download_start cwd w).
Proof using Type. reflexivity. Qed.




(** C6, where the code departs from it.  Whatever dataset load_dataset
    returns, line 49 evaluates dataset.features, which a DatasetDict does
    not have: the AttributeError leaves process_dataset after two printed
    lines.  No download was attempted, so no failure was logged and no
    record skipped; nothing was copied or pushed.  Nor would the rewrite
    loop (lines 93-120) change a record if it ran: on any splits and with
    any downloaded_paths it returns the splits as they were, because the
    assignment of line 117 goes to a dict built for the occasion. *)
Theorem loaded_pass_stops_before_first_download (ds : dataset_dict) (w : world) :
  let r := process_dataset cwd (inr ds) download_fault copy_fault push_fault w in
  let new := drop (length (trace w)) (trace (snd r)) in
  fst r = Raises no_features
  /\ exn_class no_features = "AttributeError"%string
  /\ new = [Stdout (lit "Attempting to load dataset: " ++ REPO_ID);
            Stdout (lit "Downloading audio files temporarily for casting...")]
  /\ download_calls (snd r) = download_calls w
  /\ copy_calls (snd r) = copy_calls w
  /\ push_calls (snd r) = push_calls w
  /\ remote (snd r) = remote w
  /\ (forall downloaded_paths updated w',
        fst (rewrite_pass downloaded_paths updated w') = Returns updated).
Proof using Type.
  cbv zeta. rewrite process_dataset_loaded. cbn [fst snd].
  split; [reflexivity|]. split; [reflexivity|]. split.
  { now rewrite trace_download_start, drop_app_length. }
  split; [reflexivity|]. split; [reflexivity|]. split; [reflexivity|].
  split; [reflexivity|].
  intros dp updated w'. destruct (rewrite_pass_run dp updated w') as (w1 & -> & _).
  reflexivity.
Qed.

End MaterializationFacts.

Lemma inits_self {A} (l : list A) : l ∈ inits l.
Proof.
  induction l as [|x l IH]; cbn; [left|]. right.
  apply list_elem_of_fmap. exists l. split; [reflexivity|exact IH].
Qed.


(** C4, where the code departs from it.  When load_dataset raises
    RepositoryNotFoundError the pass prints the fatal message, removes the
    download cache alone and returns: the data directory that the pass
    created at its start is still there, whatever the disk held before
    and whatever the collaborators would have done. *)
Theorem fatal_load_leaves_data_directory (w : world)
    (download_fault : nat -> str -> option exn)
    (copy_fault : nat -> str -> str -> option exn)
    (push_fault : nat -> str -> dataset -> option exn) :
  let r := process_dataset sample_cwd (inl not_found) download_fault copy_fault
             push_fault w in
  fst r = Returns tt
  /\ (forall p, p ∈ fs (snd r) -> ~ resolve sample_cwd REPO_SUBFOLDER `prefix_of` p)
  /\ resolve sample_cwd LOCAL_CWD_DATA_DIR ∈ fs (snd r).
Proof.
  cbv zeta. unfold process_dataset, bind, os_makedirs, print, modify, shutil_rmtree, emit.
  cbn [fst snd fs with_fs].
  change (is_RepositoryNotFoundError not_found) with true. cbn [fst snd fs with_fs].
  split; [reflexivity|]. split.
  - intros p Hp. now apply elem_of_filter in Hp as [H _].
  - apply elem_of_filter. split.
    + apply (bool_decide_unpack _). vm_compute. exact I.
    + apply elem_of_union_r, elem_of_list_to_set, inits_self.
Qed.

(* Any other exception of load_dataset is not caught: the pass ends with
   it and removes nothing. *)
Lemma other_load_error_skips_cleanup (w : world) (e : exn)
    (download_fault : nat -> str -> option exn)
    (copy_fault : nat -> str -> str -> option exn)
    (push_fault : nat -> str -> dataset -> option exn) :
  is_RepositoryNotFoundError e = false ->
  let r := process_dataset sample_cwd (inl e) download_fault copy_fault push_fault w in
  fst r = Raises e
  /\ resolve sample_cwd REPO_LOCAL_STORAGE ∈ fs (snd r)
  /\ resolve sample_cwd LOCAL_CWD_DATA_DIR ∈ fs (snd r).
Proof.
  intros He. cbv zeta.
  unfold process_dataset, bind, os_makedirs, print, modify, raise, emit.
  cbn [fst snd fs with_fs]. rewrite He. cbn [fst snd fs with_fs].
  split; [reflexivity|]. split.
  - apply elem_of_union_l, elem_of_union_r, elem_of_list_to_set, inits_self.
  - apply elem_of_union_r, elem_of_list_to_set, inits_self.
Qed.

(* An exception of a class derived from RepositoryNotFoundError is caught
   by the same except clause. *)
Lemma gated_repository_is_caught (w : world)
    (download_fault : nat -> str -> option exn)
    (copy_fault : nat -> str -> str -> option exn)
    (push_fault : nat -> str -> dataset -> option exn) :
  fst (process_dataset sample_cwd (inl gated) download_fault copy_fault push_fault w)
  = Returns tt.
Proof. reflexivity. Qed.




End CastingSpec.
(** * Further properties of the ingestion pipeline *)

Module AppExtra.
Import Py Eff App AppNotions.

Lemma seconds_slept_app (t1 t2 : list event) :
  seconds_slept (t1 ++ t2) = seconds_slept t1 ++ seconds_slept t2.
Proof. apply omap_app. Qed.

Lemma lines_printed_app (t1 t2 : list event) :
  lines_printed (t1 ++ t2) = lines_printed t1 ++ lines_printed t2.
Proof. apply omap_app. Qed.

Lemma retry_trace_printed (path : str) (f : nat -> option exn) :
  length (lines_printed (retry_trace path f)) = last_attempt f.
Proof.
  unfold retry_trace. pose proof (AppSpec.last_attempt_bound f).
  destruct (last_attempt f) as [|[|[|n]]]; try lia; reflexivity.
Qed.

Lemma strip_falsy (s : str) :
  truthy (strip s) = false -> Forall (fun c => isspace c = true) s.
Proof.
  intros Ht.
  destruct (Forall_Exists_dec (fun c => isspace c = true) (fun c => isspace c <> true)
              (fun c => bool_dec (isspace c) true) s) as [Hall|Hex]; [exact Hall|].
  apply Exists_exists in Hex as (c & Hin & Hc).
  rewrite (AppSpec.strip_truthy s c) in Ht;
    [discriminate|exact Hin|now destruct (isspace c)].
Qed.

Lemma rejected_dec (audio_path : option str) (transcript : str) :
  {rejected audio_path transcript} + {~ rejected audio_path transcript}.
Proof.
  unfold rejected. destruct audio_path as [path|]; [|left; now left].
  destruct (Forall_Exists_dec (fun c => isspace c = true) (fun c => isspace c <> true)
              (fun c => bool_dec (isspace c) true) transcript) as [Hall|Hex].
  - left. now right.
  - right. intros [H|H]; [discriminate|].
    apply Exists_exists in Hex as (c & Hin & Hc).
    rewrite Forall_forall in H. apply Hc, H, Hin.
Qed.

Lemma validation_not_uploaded (id : str) : validation_message <> lit "Uploaded: " ++ id.
Proof. intros H. discriminate H. Qed.

Lemma utf8_encode_surrogate (s : str) (c : N) :
  c ∈ s -> is_surrogate c = true -> utf8_encode s = None.
Proof.
  intros Hin Hc. induction s as [|a s IH]; [inversion Hin|].
  cbn [utf8_encode]. apply elem_of_cons in Hin as [<-|Hin].
  - assert (utf8_char c = None) as ->; [|reflexivity].
    unfold is_surrogate in Hc. unfold utf8_char.
    apply andb_true_iff in Hc as [H1 H2]. apply N.leb_le in H1, H2.
    destruct (N.ltb_spec c 0x80); [lia|]. destruct (N.ltb_spec c 0x800); [lia|].
    destruct (N.leb_spec 0xD800 c); [|lia]. destruct (N.leb_spec c 0xDFFF); [|lia].
    reflexivity.
  - rewrite (IH Hin). now destruct (utf8_char a).
Qed.

Lemma surrogate_in_encoded (s : str) (c : N) :
  c ∈ s -> is_surrogate c = true -> c ∈ encode_basestring s.
Proof.
  intros Hin Hc. unfold encode_basestring.
  apply elem_of_app. right. apply elem_of_app. left.
  assert (escape_char c = [c]) as He.
  { unfold is_surrogate in Hc. apply andb_true_iff in Hc as [H1 H2].
    apply N.leb_le in H1, H2. apply PyFacts.escape_char_plain; lia. }
  induction s as [|a s IH]; [inversion Hin|].
  cbn [map concat]. apply elem_of_app. apply elem_of_cons in Hin as [<-|Hin].
  - left. rewrite He. left.
  - right. now apply IH.
Qed.

Section RetryMore.

Variable upload_fault : nat -> str -> bytes -> option exn.

Local Abbreviation safe_upload := (App.safe_upload upload_fault).

(** X1. A call of safe_upload changes at most the object at its own path:
    every other object of the repository is kept, no id is drawn and the
    clock is not read.  When the call returns, the path holds the uploaded
    bytes, replacing what was there; when it raises, the repository is
    exactly as before. *)
Theorem safe_upload_changes_one_path (obj : bytes) (path : str) (w : world) :
  let r := safe_upload obj path w in
  uuid_calls (snd r) = uuid_calls w /\ clock_calls (snd r) = clock_calls w
  /\ (forall p, p <> path -> hub (snd r) !! p = hub w !! p)
  /\ (fst r = Returns tt -> hub (snd r) !! path = Some obj)
  /\ (forall e, fst r = Raises e -> hub (snd r) = hub w).
Proof using Type.
  cbv zeta. rewrite AppSpec.safe_upload_run. cbn [fst snd hub uuid_calls clock_calls].
  split; [reflexivity|]. split; [reflexivity|].
  destruct (faults_from upload_fault (upload_calls w) path obj (last_attempt _)) as [e|].
  - split; [reflexivity|]. split; [discriminate|reflexivity].
  - split; [intros p Hp; now apply lookup_insert_ne|].
    split; [intros _; apply lookup_insert_eq|discriminate].
Qed.

(** X2. safe_upload prints a retry message after the first failed
    attempt and after the second, numbered 1/3 and 2/3, and nothing else.
    A third failure is not logged: when the call raises, three attempts
    were made and two messages printed. *)
Theorem safe_upload_logs_retries_only (obj : bytes) (path : str) (w : world) :
  let f := faults_from upload_fault (upload_calls w) path obj in
  let r := safe_upload obj path w in
  let new := drop (length (trace w)) (trace (snd r)) in
  lines_printed new
  = take (last_attempt f)
      [lit "Upload failed, retrying... (1/3)"; lit "Upload failed, retrying... (2/3)"]
  /\ (forall e, fst r = Raises e ->
        length (paths_attempted new) = 3%nat
        /\ lines_printed new
           = [lit "Upload failed, retrying... (1/3)"; lit "Upload failed, retrying... (2/3)"]).
Proof using Type.
  cbv zeta. rewrite AppSpec.safe_upload_run. cbn [fst snd trace].
  rewrite drop_app_length, AppSpec.retry_trace_attempted, length_replicate.
  set (f := faults_from upload_fault (upload_calls w) path obj).
  assert (lines_printed (retry_trace path f)
          = take (last_attempt f)
              [lit "Upload failed, retrying... (1/3)"; lit "Upload failed, retrying... (2/3)"])
    as Hlines.
  { unfold retry_trace. pose proof (AppSpec.last_attempt_bound f).
    destruct (last_attempt f) as [|[|[|n]]]; try lia; reflexivity. }
  split; [exact Hlines|]. intros e He. rewrite Hlines.
  assert (last_attempt f = 2%nat) as ->; [|split; reflexivity].
  unfold last_attempt in *.
  destruct (f 0%nat) eqn:E0; [|rewrite E0 in He; discriminate He].
  destruct (f 1%nat) eqn:E1; [reflexivity|rewrite E1 in He; discriminate He].
Qed.

End RetryMore.

Section PipelineMore.

Context {Samples : Type}.
Variable sf_write_flac : Samples -> N -> bytes.
Variable upload_fault : nat -> str -> bytes -> option exn.
Variable uuid4 : nat -> str.
Variable utcnow : nat -> datetime.
Variable environ : gmap str str.

Local Abbreviation faults_from := (App.faults_from upload_fault).
Local Abbreviation process_and_upload :=
  (App.process_and_upload sf_write_flac upload_fault uuid4 utcnow environ).
Local Abbreviation flac_path := (App.flac_path uuid4 environ).
Local Abbreviation json_path := (App.json_path uuid4 environ).
Local Abbreviation meta_of := (App.meta_of uuid4 utcnow environ).

(** X3. One call of process_and_upload makes between 1 and 6 calls of
    hf.upload_file and sleeps at most 4 times, 2 seconds each time: a
    submission is held back by at most 8 seconds of back-off.  Every sleep
    comes with one printed retry message and nothing else is printed. *)
Theorem process_and_upload_effort (arr : Samples) (sr : N) (transcript : str)
    (speaker_id language : option str) (w : world) :
  let r := process_and_upload arr sr transcript speaker_id language w in
  let new := drop (length (trace w)) (trace (snd r)) in
  exists calls sleeps,
    (1 <= calls <= 6)%nat /\ (sleeps <= 4)%nat /\ (sleeps < calls)%nat
    /\ upload_calls (snd r) = (calls + upload_calls w)%nat
    /\ length (paths_attempted new) = calls
    /\ seconds_slept new = replicate sleeps 2%nat
    /\ length (lines_printed new) = sleeps.
Proof using Type.
  cbv zeta. rewrite AppSpec.process_and_upload_run. cbv zeta.
  set (f1 := faults_from (upload_calls w) _ _).
  pose proof (AppSpec.last_attempt_bound f1) as B1.
  assert (forall x, (exists calls sleeps,
            (1 <= calls <= 6)%nat /\ (sleeps <= 4)%nat /\ (sleeps < calls)%nat
            /\ (S (last_attempt f1) + upload_calls w)%nat = (calls + upload_calls w)%nat
            /\ length (paths_attempted
                 (drop (length (trace w)) (trace w ++ retry_trace x f1))) = calls
            /\ seconds_slept (drop (length (trace w)) (trace w ++ retry_trace x f1))
               = replicate sleeps 2%nat
            /\ length (lines_printed
                 (drop (length (trace w)) (trace w ++ retry_trace x f1))) = sleeps)) as Hone.
  { intros x. exists (S (last_attempt f1)), (last_attempt f1).
    rewrite drop_app_length, AppSpec.retry_trace_attempted, AppSpec.retry_trace_slept,
      retry_trace_printed, length_replicate.
    repeat split; lia. }
  destruct (f1 (last_attempt f1)) as [e|]; [apply Hone|].
  destruct (utf8_encode _) as [mb|]; [|apply Hone].
  set (f2 := faults_from (S (last_attempt f1) + upload_calls w) _ mb).
  pose proof (AppSpec.last_attempt_bound f2) as B2.
  exists (S (last_attempt f2) + S (last_attempt f1))%nat,
         (last_attempt f1 + last_attempt f2)%nat.
  cbn [fst snd trace upload_calls].
  rewrite <- app_assoc, drop_app_length.
  rewrite AppSpec.paths_attempted_app, seconds_slept_app, lines_printed_app.
  rewrite !length_app, !AppSpec.retry_trace_attempted, !AppSpec.retry_trace_slept,
    !retry_trace_printed, !length_replicate, <- replicate_add.
  repeat split; lia.
Qed.

(** X4. Whatever happens to its uploads, a call of process_and_upload
    draws exactly one id, reads the clock exactly once and leaves every
    object of the repository other than its own two paths as it was. *)
Theorem process_and_upload_keeps_other_objects (arr : Samples) (sr : N)
    (transcript : str) (speaker_id language : option str) (w : world) (p : str) :
  let r := process_and_upload arr sr transcript speaker_id language w in
  p <> flac_path (uuid_calls w) -> p <> json_path (uuid_calls w) ->
  hub (snd r) !! p = hub w !! p
  /\ uuid_calls (snd r) = S (uuid_calls w)
  /\ clock_calls (snd r) = S (clock_calls w).
Proof using Type.
  cbv zeta. intros Hf Hj. rewrite AppSpec.process_and_upload_run. cbv zeta.
  repeat match goal with
         | |- context [match ?x with Some _ => _ | None => _ end] => destruct x
         end;
    cbn [fst snd hub uuid_calls clock_calls];
    rewrite ?lookup_insert_ne by congruence; repeat split.
Qed.

(** X5. A transcript that holds a lone surrogate cannot be encoded as
    UTF-8: once the audio blob is stored, the call raises
    UnicodeEncodeError before any upload of the sidecar is attempted, and
    the audio blob stays in the repository without a sidecar. *)
Theorem surrogate_transcript_orphans_audio (arr : Samples) (sr : N) (transcript : str)
    (speaker_id language : option str) (w : world) (c : N) (n1 : nat) :
  let flac := flac_path (uuid_calls w) in
  let json := json_path (uuid_calls w) in
  let buf := sf_write_flac arr sr in
  let r := process_and_upload arr sr transcript speaker_id language w in
  let new := drop (length (trace w)) (trace (snd r)) in
  c ∈ transcript -> is_surrogate c = true ->
  succeeds_at (faults_from (upload_calls w) flac buf) n1 ->
  (exists e, fst r = Raises e /\ exn_class e = "UnicodeEncodeError"%string)
  /\ paths_attempted new = replicate (S n1) flac
  /\ paths_stored new = [flac]
  /\ hub (snd r) = <[flac := buf]> (hub w)
  /\ json ∉ paths_attempted new.
Proof using Type.
  cbv zeta. intros Hin Hc H1.
  rewrite AppSpec.process_and_upload_run. cbv zeta.
  destruct (AppSpec.succeeds_at_last _ _ H1) as [E1 E1']. rewrite E1'.
  assert (utf8_encode (json_dumps (meta_of w transcript speaker_id language)) = None) as ->.
  { apply (utf8_encode_surrogate _ c); [|exact Hc].
    destruct (PyFacts.json_dumps_contains (meta_of w transcript speaker_id language)
                (lit "transcript") transcript) as (before & after & ->).
    - unfold App.meta_of, meta_dict. cbn. tauto.
    - apply elem_of_app. right. apply elem_of_app. left.
      now apply surrogate_in_encoded. }
  cbn [fst snd trace hub]. rewrite drop_app_length.
  rewrite AppSpec.retry_trace_attempted, AppSpec.retry_trace_stored, E1', E1.
  split; [eexists; split; reflexivity|].
  split; [reflexivity|]. split; [reflexivity|]. split; [reflexivity|].
  intros Hj. apply elem_of_replicate in Hj as [Hj _].
  exact (AppSpec.flac_json_distinct uuid4 environ _ _ (eq_sym Hj)).
Qed.

Section SubmitMore.

Variable sf_read : str -> exn + Samples * N.

Local Abbreviation on_submit :=
  (App.on_submit sf_read sf_write_flac upload_fault uuid4 utcnow environ).

(** X6. on_submit can return two strings only.  The validation message
    comes with a world left as it was.  The string Uploaded: id is returned only
    for a recorded audio, and only once both objects of the record are
    stored, the audio blob first and the sidecar second.  The two strings
    never coincide. *)
Theorem on_submit_status_strings (audio_path : option str)
    (transcript speaker_id language : str) (w : world) (status : str) :
  let r := on_submit audio_path transcript speaker_id language w in
  let new := drop (length (trace w)) (trace (snd r)) in
  fst r = Returns status ->
  (status = validation_message /\ snd r = w /\ rejected audio_path transcript)
  \/ (status = lit "Uploaded: " ++ uuid4 (uuid_calls w)
      /\ status <> validation_message
      /\ is_Some audio_path
      /\ paths_stored new = [flac_path (uuid_calls w); json_path (uuid_calls w)]
      /\ is_Some (hub (snd r) !! flac_path (uuid_calls w))
      /\ is_Some (hub (snd r) !! json_path (uuid_calls w))).
Proof using Type.
  cbv zeta. destruct audio_path as [path|].
  2:{ cbn. intros [= <-]. left. repeat split. now left. }
  destruct (truthy (strip transcript)) eqn:Ht.
  2:{ unfold App.on_submit. rewrite Ht. cbn. intros [= <-]. left. repeat split.
      right. now apply strip_falsy. }
  destruct (sf_read path) as [e|[arr sr]] eqn:Hread.
  { erewrite AppSpec.on_submit_unreadable by eassumption. discriminate. }
  erewrite AppSpec.on_submit_accepted by eassumption. cbv zeta.
  rewrite AppSpec.process_and_upload_run. cbv zeta.
  destruct (faults_from (upload_calls w) _ _ (last_attempt _)) as [e|] eqn:F1;
    [discriminate|].
  destruct (utf8_encode _) as [mb|]; [|discriminate].
  destruct (faults_from (S _ + upload_calls w) _ mb (last_attempt _)) as [e|] eqn:F2;
    [discriminate|].
  cbn [fst snd trace hub]. intros [= <-]. right.
  split; [reflexivity|].
  split; [apply not_eq_sym, validation_not_uploaded|].
  split; [eauto|].
  rewrite <- app_assoc, drop_app_length, AppSpec.paths_stored_app,
    !AppSpec.retry_trace_stored, F1, F2.
  split; [reflexivity|]. split.
  - rewrite lookup_insert_ne by (apply not_eq_sym, AppSpec.flac_json_distinct).
    rewrite lookup_insert_eq. eauto.
  - rewrite lookup_insert_eq. eauto.
Qed.

(** X7. on_submit leaves the world untouched in two cases and no other:
    when its check rejects the submission (no audio was recorded, or the
    transcript has no character other than whitespace), and when sf.read
    raises for the audio file, in which case that exception leaves
    on_submit.  A submission that is accepted and read draws an id and
    makes at least one upload attempt, whether it then succeeds or
    raises. *)
Theorem on_submit_acts_iff_accepted_and_read (audio_path : option str)
    (transcript speaker_id language : str) (w : world) :
  let r := on_submit audio_path transcript speaker_id language w in
  let unread := exists path e, audio_path = Some path /\ sf_read path = inl e in
  (snd r = w <-> rejected audio_path transcript \/ unread)
  /\ (~ rejected audio_path transcript ->
      forall path e, audio_path = Some path -> sf_read path = inl e -> fst r = Raises e)
  /\ (~ rejected audio_path transcript -> ~ unread ->
      uuid_calls (snd r) = S (uuid_calls w)
      /\ (upload_calls w < upload_calls (snd r))%nat).
Proof using Type.
  cbv zeta.
  assert (forall path, audio_path = Some path -> ~ rejected audio_path transcript ->
          truthy (strip transcript) = true) as Htruthy.
  { intros path -> Hn. destruct (truthy (strip transcript)) eqn:Ht; [reflexivity|].
    exfalso. apply Hn. right. now apply strip_falsy. }
  assert (rejected audio_path transcript ->
          (on_submit audio_path transcript speaker_id language w).2 = w) as Hrej.
  { intros [-> | Hws]; [reflexivity|].
    unfold App.on_submit. rewrite (AppSpec.strip_whitespace_only _ Hws).
    destruct audio_path; reflexivity. }
  assert (~ rejected audio_path transcript ->
          forall path e, audio_path = Some path -> sf_read path = inl e ->
          on_submit audio_path transcript speaker_id language w = (Raises e, w)) as Hunread.
  { intros Hn path e Hp Hread. pose proof (Htruthy path Hp Hn) as Ht. subst audio_path.
    now apply AppSpec.on_submit_unreadable. }
  assert (~ rejected audio_path transcript ->
          ~ (exists path e, audio_path = Some path /\ sf_read path = inl e) ->
          uuid_calls (on_submit audio_path transcript speaker_id language w).2
          = S (uuid_calls w)
          /\ (upload_calls w
              < upload_calls (on_submit audio_path transcript speaker_id language w).2)%nat)
    as Hacc.
  { intros Hn Hr. destruct audio_path as [path|] eqn:Hp; [|exfalso; apply Hn; now left].
    pose proof (Htruthy path eq_refl Hn) as Ht.
    destruct (sf_read path) as [e|[arr sr]] eqn:Hread; [exfalso; apply Hr; eauto|].
    erewrite AppSpec.on_submit_accepted by eassumption. cbv zeta.
    rewrite AppSpec.process_and_upload_run. cbv zeta.
    repeat match goal with
           | |- context [match ?x with Some _ => _ | None => _ end] => destruct x
           end;
      cbn [fst snd uuid_calls upload_calls]; split; try reflexivity; lia. }
  split; [|split; [|exact Hacc]].
  - split.
    + intros Hw. destruct (rejected_dec audio_path transcript) as [H|H]; [now left|].
      right. destruct audio_path as [path|] eqn:Hp; [|exfalso; apply H; now left].
      destruct (sf_read path) as [e|[arr sr]] eqn:Hread; [eauto|].
      exfalso.
      assert (~ (exists path0 e, Some path = Some path0 /\ sf_read path0 = inl e)) as Hr.
      { intros (p0 & e & [= <-] & He). congruence. }
      destruct (Hacc H Hr) as [Hu _]. rewrite Hw in Hu. lia.
    + intros [H|(path & e & Hp & Hread)]; [exact (Hrej H)|].
      destruct (rejected_dec audio_path transcript) as [H|H]; [exact (Hrej H)|].
      now rewrite (Hunread H path e Hp Hread).
  - intros Hn path e Hp Hread. now rewrite (Hunread Hn path e Hp Hread).
Qed.

End SubmitMore.

End PipelineMore.


(** ** Instances *)

Lemma process_and_upload_keeps_other_objects_witness :
  hub (snd (App.process_and_upload sample_write (failing_first 1) sample_uuid4 sample_utcnow ∅
              (lit "rec.wav") 16000 (lit "hello world") None None readme_world))
  !! lit "README.md" = Some [35; 32; 86].
Proof.
  refine (eq_trans
            (proj1 (process_and_upload_keeps_other_objects sample_write (failing_first 1)
                      sample_uuid4 sample_utcnow ∅ (lit "rec.wav") 16000 (lit "hello world")
                      None None readme_world (lit "README.md") _ _)) _).
  - intros H. vm_compute in H. discriminate H.
  - intros H. vm_compute in H. discriminate H.
  - vm_compute. reflexivity.
Defined.

Lemma surrogate_transcript_orphans_audio_witness :
  exists e,
    fst (App.process_and_upload sample_write (failing_first 0) sample_uuid4 sample_utcnow ∅
           (lit "rec.wav") 16000 lone_surrogate None None world0) = Raises e
    /\ exn_class e = "UnicodeEncodeError"%string.
Proof.
  refine (proj1 (surrogate_transcript_orphans_audio sample_write (failing_first 0)
                   sample_uuid4 sample_utcnow ∅ (lit "rec.wav") 16000 lone_surrogate
                   None None world0 0xD83D 0 _ _ _)).
  - right. left.
  - reflexivity.
  - apply AppSpec.succeeds_at_once. reflexivity.
Defined.

Lemma on_submit_status_strings_witness :
  is_Some (hub (snd (App.on_submit sample_read sample_write (failing_first 0) sample_uuid4
                       sample_utcnow ∅ (Some (lit "rec.wav")) (lit "hello world")
                       (lit "spk1") (lit "en") world0))
           !! App.json_path sample_uuid4 ∅ 0).
Proof.
  destruct (on_submit_status_strings sample_write (failing_first 0) sample_uuid4
              sample_utcnow ∅ sample_read (Some (lit "rec.wav")) (lit "hello world")
              (lit "spk1") (lit "en") world0 (lit "Uploaded: " ++ sample_uuid4 0))
    as [(H & _)|(_ & _ & _ & _ & _ & H)].
  - vm_compute. reflexivity.
  - vm_compute in H. discriminate H.
  - exact H.
Defined.

(* The check accepts a submission whose audio file cannot be read; the
   exception of sf.read then leaves on_submit and nothing was done. *)
Lemma unreadable_audio_raises :
  App.on_submit sample_read sample_write (failing_first 0) sample_uuid4 sample_utcnow ∅
    (Some (lit "missing.wav")) (lit "hello world") (lit "spk1") (lit "en") world0
  = (Raises unreadable, world0).
Proof. vm_compute. reflexivity. Qed.

End AppExtra.

(** * Further properties of the casting pass *)

Module CastingExtra.
Import Py Eff Casting CastingNotions.

(** ** Relations kept by every step *)

Section Frames.

Context {W : Type} (R : W -> W -> Prop) `{!PreOrder R}.

Lemma preserves_ret {A} (a : A) : preserves R (ret a).
Proof. intros w. reflexivity. Qed.

Lemma preserves_raise {A} (e : exn) : preserves R (@raise W A e).
Proof. intros w. reflexivity. Qed.

Lemma preserves_bind {A B} (m : M W A) (k : A -> M W B) :
  preserves R m -> (forall a, preserves R (k a)) -> preserves R (bind m k).
Proof.
  intros Hm Hk w. unfold bind. specialize (Hm w).
  destruct (m w) as [[a|e] w1]; cbn [snd] in *; [|exact Hm].
  etransitivity; [exact Hm|apply Hk].
Qed.

Lemma preserves_try_except {A} (m : M W A) (h : exn -> M W A) :
  preserves R m -> (forall e, preserves R (h e)) -> preserves R (try_except m h).
Proof.
  intros Hm Hh w. unfold try_except. specialize (Hm w).
  destruct (m w) as [[a|e] w1]; cbn [snd] in *; [exact Hm|].
  etransitivity; [exact Hm|apply Hh].
Qed.

Lemma preserves_for_each {A S} (body : S -> A -> M W S) (s : S) (l : list A) :
  (forall s x, preserves R (body s x)) -> preserves R (for_each body s l).
Proof.
  intros Hb. revert s. induction l as [|x l IH]; intros s; cbn [for_each].
  - apply preserves_ret.
  - apply preserves_bind; [apply Hb|exact IH].
Qed.

End Frames.

(** Whatever relation on worlds the operations of the pass keep, the
    loops built from them keep. *)

Section Passes.

Variable cwd : str.
Variable download_fault : nat -> str -> option exn.
Variable copy_fault : nat -> str -> str -> option exn.
Variable push_fault : nat -> str -> dataset -> option exn.

Variable R : world -> world -> Prop.
Context `{!PreOrder R}.

Hypothesis R_print : forall l, preserves R (print l).
Hypothesis R_makedirs : forall p, preserves R (os_makedirs cwd p).
Hypothesis R_copy : forall s d, preserves R (shutil_copy2 cwd copy_fault s d).

Lemma preserves_exists (p : str) : preserves R (os_path_exists cwd p).
Proof using PreOrder0. intros w. reflexivity. Qed.

Lemma preserves_subscript (d : dataset_dict) (k : str) : preserves R (subscript d k).
Proof using PreOrder0. unfold subscript. destruct (getitem d k); intros w; reflexivity. Qed.

Lemma preserves_assign_audio (d : dataset_dict) (k : str) (i : nat) (v : str) :
  preserves R (assign_audio d k i v).
Proof using PreOrder0.
  unfold assign_audio. apply preserves_bind; [exact _|apply preserves_subscript|].
  intros x. destruct (rows x !! i); intros w; reflexivity.
Qed.

Lemma preserves_rewrite_pass (dp : gmap str str) (ds : dataset_dict) :
  preserves R (rewrite_pass cwd copy_fault dp ds).
Proof using PreOrder0 R_print R_makedirs R_copy.
  unfold rewrite_pass. apply preserves_for_each; [exact _|]. intros u k.
  apply preserves_bind; [exact _|apply preserves_subscript|]. intros d.
  apply preserves_for_each; [exact _|]. intros u' [i r].
  unfold rewrite_row. cbv zeta.
  destruct (dp !! path_key k (audio r)); [|now apply preserves_ret].
  apply preserves_bind; [exact _| |intros _].
  - apply preserves_try_except; [exact _| |intros e; apply R_print].
    apply preserves_bind; [exact _|apply R_makedirs|intros _; apply R_copy].
  - apply preserves_bind; [exact _|apply preserves_assign_audio|intros _].
    now apply preserves_ret.
Qed.

Lemma preserves_with_unresolve_features {A} (type_name : string) (body : M world A) :
  preserves R body -> preserves R (with_unresolve_features type_name body).
Proof using PreOrder0.
  intros Hbody. unfold with_unresolve_features, getattr_features.
  apply preserves_bind; [exact _|now apply preserves_raise|intros _; exact Hbody].
Qed.

Lemma preserves_cast_pass (ds : dataset_dict) : preserves R (cast_pass ds).
Proof using PreOrder0.
  unfold cast_pass. apply preserves_for_each; [exact _|]. intros u k.
  apply preserves_bind; [exact _|apply preserves_subscript|]. intros d.
  now apply preserves_ret.
Qed.

Section WithDownload.

Hypothesis R_download :
  forall f d, preserves R (hf_hub_download cwd download_fault f d).

Lemma preserves_download_row (split : str) (dp : gmap str str) (r : row) :
  preserves R (download_row cwd download_fault split dp r).
Proof using PreOrder0 R_print R_makedirs R_download.
  unfold download_row. cbv zeta.
  apply preserves_bind; [exact _|apply R_makedirs|intros _].
  apply preserves_bind; [exact _|apply preserves_exists|intros cached].
  destruct (negb cached); [|now apply preserves_ret].
  apply preserves_try_except; [exact _| |].
  - apply preserves_bind; [exact _|apply R_download|intros p; now apply preserves_ret].
  - intros e. repeat (apply preserves_bind; [exact _|apply R_print|intros _]).
    now apply preserves_ret.
Qed.

Lemma preserves_download_pass (ds : dataset_dict) :
  preserves R (download_pass cwd download_fault ds).
Proof using PreOrder0 R_print R_makedirs R_download.
  unfold download_pass. apply preserves_for_each; [exact _|]. intros dp k.
  apply preserves_bind; [exact _|apply preserves_subscript|]. intros d.
  apply preserves_for_each; [exact _|]. intros dp' r. apply preserves_download_row.
Qed.

Lemma preserves_materialize (ds : dataset_dict) :
  preserves R (materialize cwd download_fault copy_fault ds).
Proof using PreOrder0 R_print R_makedirs R_copy R_download.
  unfold materialize.
  apply preserves_bind; [exact _|apply R_print|intros _].
  apply preserves_bind; [exact _| |intros dp].
  { apply preserves_with_unresolve_features, preserves_download_pass. }
  apply preserves_bind; [exact _|apply R_print|intros _].
  apply preserves_bind; [exact _|apply R_print|intros _]. cbv zeta.
  apply preserves_bind; [exact _| |intros u].
  { apply preserves_with_unresolve_features, preserves_rewrite_pass. }
  apply preserves_bind; [exact _|apply R_print|intros _].
  apply preserves_cast_pass.
Qed.

End WithDownload.

Section WithPush.

Hypothesis R_push : forall d s, preserves R (push_to_hub cwd push_fault d s).
Hypothesis R_rmtree_cache : preserves R (shutil_rmtree cwd REPO_SUBFOLDER).
Hypothesis R_rmtree_data : preserves R (shutil_rmtree cwd LOCAL_CWD_DATA_DIR).

Lemma preserves_push_pass (updated : dataset_dict) :
  preserves R (push_pass cwd push_fault updated).
Proof using PreOrder0 R_print R_push.
  unfold push_pass, push_all.
  apply preserves_try_except; [exact _| |].
  - apply preserves_bind; [exact _| |intros _; apply R_print].
    apply preserves_for_each; [exact _|]. intros [] item. unfold push_split.
    apply preserves_bind; [exact _|apply R_print|intros _; apply R_push].
  - intros e. repeat (apply preserves_bind; [exact _|apply R_print|intros _]).
    apply R_print.
Qed.

Lemma preserves_cleanup : preserves R (cleanup cwd).
Proof using PreOrder0 R_print R_rmtree_cache R_rmtree_data.
  unfold cleanup.
  apply preserves_bind; [exact _|apply R_rmtree_cache|intros _].
  apply preserves_bind; [exact _|apply R_rmtree_data|intros _]. apply R_print.
Qed.

Lemma preserves_process_dataset (load_dataset : exn + dataset_dict) :
  (forall f d, preserves R (hf_hub_download cwd download_fault f d)) ->
  preserves R (process_dataset cwd load_dataset download_fault copy_fault push_fault).
Proof using PreOrder0 R_print R_makedirs R_copy R_push R_rmtree_cache R_rmtree_data.
  intros R_download. unfold process_dataset.
  apply preserves_bind; [exact _|apply R_makedirs|intros _].
  apply preserves_bind; [exact _|apply R_makedirs|intros _].
  apply preserves_bind; [exact _|apply R_print|intros _].
  destruct load_dataset as [e|ds].
  - destruct (is_RepositoryNotFoundError e); [|now apply preserves_raise].
    apply preserves_bind; [exact _|apply R_print|intros _]. apply R_rmtree_cache.
  - apply preserves_bind; [exact _|now apply preserves_materialize|intros u].
    apply preserves_bind; [exact _|apply R_print|intros _].
    apply preserves_bind; [exact _|apply preserves_push_pass|intros _].
    apply preserves_cleanup.
Qed.

End WithPush.

End Passes.

(** ** What the operations keep *)

#[local] Instance keeps_outside_preorder (cwd : str) : PreOrder (keeps_outside cwd).
Proof.
  split.
  - intros w p Hp _. exact Hp.
  - intros w1 w2 w3 H12 H23 p Hp Hn. apply H23; [apply H12|]; assumption.
Qed.

Lemma downloads_attempted_app (t1 t2 : list event) :
  downloads_attempted (t1 ++ t2) = downloads_attempted t1 ++ downloads_attempted t2.
Proof. apply omap_app. Qed.

Lemma downloads_succeeded_app (t1 t2 : list event) :
  downloads_succeeded (t1 ++ t2) = downloads_succeeded t1 ++ downloads_succeeded t2.
Proof. apply omap_app. Qed.

Lemma downloads_succeeded_attempted (t : list event) :
  downloads_succeeded t `sublist_of` downloads_attempted t.
Proof.
  induction t as [|e t IH]; [constructor|].
  destruct e as [l|f [x|]|s d x|s x]; cbn; try exact IH.
  - now apply sublist_cons.
  - now apply sublist_skip.
Qed.

Lemma downloads_succeeded_elem (t : list event) (a : str) :
  a ∈ downloads_succeeded t -> a ∈ downloads_attempted t.
Proof.
  induction t as [|e t IH]; [intros H; inversion H|].
  destruct e as [l|f [x|]|s d x|s x]; cbn; try exact IH.
  - intros H. right. exact (IH H).
  - intros H. apply elem_of_cons in H as [->|H]; [left|right; exact (IH H)].
Qed.

Lemma replace_char_same (c : N) (s : str) : replace_char c c s = s.
Proof.
  unfold replace_char. induction s as [|a s IH]; [reflexivity|].
  cbn [map]. rewrite IH. destruct (N.eqb_spec a c); congruence.
Qed.

Lemma bind_returns {W A B} (m : M W A) (k : A -> M W B) (w w1 : W) (a : A) :
  m w = (Returns a, w1) -> bind m k w = k a w1.
Proof. intros H. unfold bind. now rewrite H. Qed.


(** X8. The key split/audio of downloaded_paths tells the records of
    different splits apart, as the pass intends, as long as split names
    hold no slash: two records then have the same key only if they are in
    the same split and name the same audio file. *)
Theorem path_key_unique_across_splits (split1 split2 audio1 audio2 : str) :
  47 ∉ split1 -> 47 ∉ split2 ->
  path_key split1 audio1 = path_key split2 audio2 ->
  split1 = split2 /\ audio1 = audio2.
Proof.
  unfold path_key. change (lit "/") with [47].
  revert split2. induction split1 as [|c s1 IH]; intros [|d s2] H1 H2 E; cbn in E.
  - injection E as <-. now split.
  - injection E as <- _. exfalso. apply H2. left.
  - injection E as -> _. exfalso. apply H1. left.
  - injection E as <- E. apply not_elem_of_cons in H1 as [_ H1], H2 as [_ H2].
    destruct (IH s2 H1 H2 E) as [-> ->]. now split.
Qed.


Section Operations.

Variable cwd : str.
Variable download_fault : nat -> str -> option exn.
Variable copy_fault : nat -> str -> str -> option exn.
Variable push_fault : nat -> str -> dataset -> option exn.

Local Abbreviation resolve := (Casting.resolve cwd).
Local Abbreviation os_makedirs := (Casting.os_makedirs cwd).
Local Abbreviation shutil_rmtree := (Casting.shutil_rmtree cwd).
Local Abbreviation hf_hub_download := (Casting.hf_hub_download cwd download_fault).
Local Abbreviation shutil_copy2 := (Casting.shutil_copy2 cwd copy_fault).
Local Abbreviation push_to_hub := (Casting.push_to_hub cwd push_fault).
Local Abbreviation download_row := (Casting.download_row cwd download_fault).
Local Abbreviation download_records := (Casting.download_records cwd download_fault).
Local Abbreviation download_pass := (Casting.download_pass cwd download_fault).
Local Abbreviation materialize := (Casting.materialize cwd download_fault copy_fault).
Local Abbreviation push_pass := (Casting.push_pass cwd push_fault).

(* Nothing but rmtree takes a path away, and rmtree takes away what is
   under its argument. *)

Lemma keeps_print (l : str) : preserves (keeps_outside cwd) (print l).
Proof using Type. intros w p Hp _. exact Hp. Qed.

Lemma keeps_makedirs (p : str) : preserves (keeps_outside cwd) (os_makedirs p).
Proof using Type. intros w q Hq _. cbn [snd fs with_fs]. apply elem_of_union_l, Hq. Qed.

Lemma keeps_download (f d : str) : preserves (keeps_outside cwd) (hf_hub_download f d).
Proof using Type.
  intros w q Hq _. unfold Casting.hf_hub_download.
  destruct (download_fault _ _); cbn [snd fs with_fs]; [exact Hq|apply elem_of_union_l, Hq].
Qed.

Lemma keeps_copy (s d : str) : preserves (keeps_outside cwd) (shutil_copy2 s d).
Proof using Type.
  intros w q Hq _. unfold Casting.shutil_copy2.
  destruct (if bool_decide _ then _ else _); cbn [snd fs with_fs];
    [exact Hq|apply elem_of_union_l, Hq].
Qed.

Lemma keeps_push (d : dataset) (s : str) : preserves (keeps_outside cwd) (push_to_hub d s).
Proof using Type.
  intros w q Hq _. unfold Casting.push_to_hub.
  destruct (push_failure _ _ _ _ _ _); exact Hq.
Qed.

Lemma keeps_rmtree_cache : preserves (keeps_outside cwd) (shutil_rmtree REPO_SUBFOLDER).
Proof using Type.
  intros w q Hq Hn. cbn [snd fs with_fs]. apply elem_of_filter. split; [|exact Hq].
  intros H. apply Hn. now left.
Qed.

Lemma keeps_rmtree_data : preserves (keeps_outside cwd) (shutil_rmtree LOCAL_CWD_DATA_DIR).
Proof using Type.
  intros w q Hq Hn. cbn [snd fs with_fs]. apply elem_of_filter. split; [|exact Hq].
  intros H. apply Hn. now right.
Qed.

(** ** The download loop taken alone, event by event *)

Lemma download_row_trace (split : str) (dp : gmap str str) (r : row) (w : world) :
  exists dp' w' t,
    download_row split dp r w = (Returns dp', w')
    /\ trace w' = trace w ++ t
    /\ fs w ⊆ fs w'
    /\ download_calls w' = (download_calls w + length (downloads_attempted t))%nat
    /\ downloads_attempted t `sublist_of` [audio r]
    /\ (forall a, a ∈ downloads_attempted t -> resolve (local_cache_path_of a) ∉ fs w)
    /\ (forall a, a ∈ downloads_succeeded t -> resolve (local_cache_path_of a) ∈ fs w').
Proof using Type.
  clear copy_fault push_fault. unfold Casting.download_row.
  unfold bind at 1. unfold Casting.os_makedirs at 1, modify at 1. cbn [fst snd].
  set (w1 := with_fs _ w).
  assert (fs w ⊆ fs w1) as Hfs by (subst w1; cbn [fs with_fs]; set_solver).
  unfold bind at 1. unfold os_path_exists at 1. cbn [fst snd].
  destruct (bool_decide _) eqn:Hc; cbn [negb].
  { exists (<[path_key split (audio r) := local_cache_path_of (audio r)]> dp), w1, [].
    split; [reflexivity|]. cbn [trace with_fs]. rewrite app_nil_r.
    split; [reflexivity|]. split; [exact Hfs|]. split; [cbn; lia|].
    split; [apply sublist_nil_l|]. split; intros a Ha; inversion Ha. }
  apply bool_decide_eq_false in Hc.
  unfold try_except, bind, Casting.hf_hub_download, ret, print, modify, emit.
  cbn [download_calls fs remote copy_calls push_calls trace fst snd].
  destruct (download_fault (download_calls w1) (audio r)) as [e|];
    cbn [download_calls fs remote copy_calls push_calls trace fst snd with_fs].
  - eexists _, _, [DownloadAttempt (audio r) (Some e); _; _; _; _].
    split; [reflexivity|]. cbn [trace]. split; [now rewrite <- !app_assoc|].
    split; [exact Hfs|]. split; [cbn; lia|]. split; [reflexivity|]. split.
    + intros a Ha. apply list_elem_of_singleton in Ha as ->.
      intros H. apply Hc, Hfs, H.
    + intros a Ha. inversion Ha.
  - eexists _, _, [DownloadAttempt (audio r) None].
    split; [reflexivity|]. cbn [trace fs]. split; [reflexivity|].
    split; [set_solver|]. split; [cbn; lia|]. split; [reflexivity|]. split.
    + intros a Ha. apply list_elem_of_singleton in Ha as ->.
      intros H. apply Hc, Hfs, H.
    + intros a Ha. apply list_elem_of_singleton in Ha as ->.
      apply elem_of_union_r, elem_of_list_to_set.
      unfold local_cache_path_of. change sep with 47. rewrite replace_char_same.
      apply CastingSpec.inits_self.
Qed.

Lemma download_records_trace (dp : gmap str str) (items : list (str * row)) (w : world) :
  exists dp' w' t,
    download_records dp items w = (Returns dp', w')
    /\ trace w' = trace w ++ t
    /\ fs w ⊆ fs w'
    /\ download_calls w' = (download_calls w + length (downloads_attempted t))%nat
    /\ downloads_attempted t `sublist_of` map (fun item => audio (snd item)) items
    /\ NoDup (downloads_succeeded t)
    /\ (forall a, a ∈ downloads_attempted t -> resolve (local_cache_path_of a) ∉ fs w)
    /\ (forall a, a ∈ downloads_succeeded t -> resolve (local_cache_path_of a) ∈ fs w').
Proof using Type.
  clear copy_fault push_fault.
  revert dp w. induction items as [|[split r] items IH]; intros dp w.
  - exists dp, w, []. rewrite app_nil_r. split; [reflexivity|]. split; [reflexivity|].
    split; [reflexivity|]. split; [cbn; lia|]. split; [reflexivity|].
    split; [constructor|]. split; intros a Ha; inversion Ha.
  - unfold Casting.download_records. cbn [for_each fst snd].
    destruct (download_row_trace split dp r w)
      as (dp1 & w1 & t1 & Hrow & Ht1 & Hfs1 & Hc1 & Ha1 & Hn1 & Hs1).
    rewrite (bind_returns _ _ _ _ _ Hrow).
    destruct (IH dp1 w1)
      as (dp' & w' & t2 & Hrun & Ht2 & Hfs2 & Hc2 & Ha2 & Hnd2 & Hn2 & Hs2).
    unfold Casting.download_records in Hrun. rewrite Hrun.
    exists dp', w', (t1 ++ t2). split; [reflexivity|].
    rewrite downloads_attempted_app, downloads_succeeded_app, length_app.
    split; [now rewrite Ht2, Ht1, app_assoc|]. split; [set_solver|].
    split; [lia|]. split; [exact (sublist_app _ _ _ _ Ha1 Ha2)|]. split.
    + apply NoDup_app. split; [|split; [|exact Hnd2]].
      * assert (downloads_succeeded t1 `sublist_of` [audio r]) as Hsub
          by (etransitivity; [apply downloads_succeeded_attempted|exact Ha1]).
        exact (sublist_NoDup _ _ (NoDup_singleton (audio r)) Hsub).
      * intros a Hin1 Hin2.
        exact (Hn2 a (downloads_succeeded_elem _ _ Hin2) (Hs1 a Hin1)).
    + split.
      * intros a Ha. apply elem_of_app in Ha as [Ha|Ha]; [now apply Hn1|].
        intros H. apply (Hn2 a Ha), Hfs1, H.
      * intros a Ha. apply elem_of_app in Ha as [Ha|Ha]; [|now apply Hs2].
        apply Hfs2, Hs1, Ha.
Qed.

(* The events of a pass whose dataset loaded: two lines, the download
   loop, and events that are no downloads. *)

(** ** The pass as a whole *)

(** X9. Whatever load_dataset does and whatever fails, process_dataset
    removes no path outside the two trees it owns: a file or directory
    that is neither under tmp_audio_root nor under data exists after the
    pass if it existed before. *)
Theorem process_dataset_keeps_outside_paths (load_dataset : exn + dataset_dict)
    (w : world) (p : list str) :
  let r := Casting.process_dataset cwd load_dataset download_fault copy_fault push_fault w in
  p ∈ fs w -> ~ in_scratch cwd p -> p ∈ fs (snd r).
Proof using Type.
  cbv zeta.
  apply (preserves_process_dataset cwd download_fault copy_fault push_fault
           (keeps_outside cwd) keeps_print keeps_makedirs keeps_copy keeps_push
           keeps_rmtree_cache keeps_rmtree_data load_dataset keeps_download w p).
Qed.

(** X10. When load_dataset raises an exception that is not an instance of
    RepositoryNotFoundError (neither the class nor one derived from it),
    the exception leaves process_dataset: nothing was downloaded, copied
    or pushed, only the first line was printed, and no cleanup ran, so the
    two directories made at the start are on disk together with all that
    was there before. *)
Theorem other_load_error_propagates (e : exn) (w : world) :
  is_RepositoryNotFoundError e = false ->
  let r := Casting.process_dataset cwd (inl e) download_fault copy_fault push_fault w in
  fst r = Raises e
  /\ lines_printed (drop (length (trace w)) (trace (snd r)))
     = [lit "Attempting to load dataset: " ++ REPO_ID]
  /\ no_hub_write w (snd r)
  /\ download_calls (snd r) = download_calls w
  /\ copy_calls (snd r) = copy_calls w
  /\ fs w ⊆ fs (snd r)
  /\ resolve REPO_LOCAL_STORAGE ∈ fs (snd r)
  /\ resolve LOCAL_CWD_DATA_DIR ∈ fs (snd r).
Proof using Type.
  intros He. cbv zeta.
  unfold Casting.process_dataset, bind, Casting.os_makedirs, print, modify, raise, emit.
  cbn [fst snd fs with_fs]. rewrite He.
  cbn [fst snd fs with_fs trace remote push_calls download_calls copy_calls].
  split; [reflexivity|]. rewrite drop_app_length.
  split; [reflexivity|]. split; [split; reflexivity|].
  split; [reflexivity|]. split; [reflexivity|].
  split; [set_solver|]. split.
  - apply elem_of_union_l, elem_of_union_r, elem_of_list_to_set, CastingSpec.inits_self.
  - apply elem_of_union_r, elem_of_list_to_set, CastingSpec.inits_self.
Qed.

(** X11. When load_dataset raises RepositoryNotFoundError (an instance of
    the class or of one derived from it), whatever the working directory,
    process_dataset returns normally after two printed lines: nothing was
    downloaded, copied or pushed, nothing is left under tmp_audio_root, and
    every path outside tmp_audio_root is kept. *)
Theorem missing_repository_ends_quietly (e : exn) (w : world) :
  is_RepositoryNotFoundError e = true ->
  let r := Casting.process_dataset cwd (inl e) download_fault copy_fault push_fault w in
  fst r = Returns tt
  /\ lines_printed (drop (length (trace w)) (trace (snd r)))
     = [lit "Attempting to load dataset: " ++ REPO_ID;
        lit "FATAL ERROR: Could not load repository. Check spelling or permissions."]
  /\ no_hub_write w (snd r)
  /\ download_calls (snd r) = download_calls w
  /\ copy_calls (snd r) = copy_calls w
  /\ (forall p, p ∈ fs (snd r) -> ~ resolve REPO_SUBFOLDER `prefix_of` p)
  /\ (forall p, p ∈ fs w -> ~ resolve REPO_SUBFOLDER `prefix_of` p -> p ∈ fs (snd r)).
Proof using Type.
  intros He. cbv zeta.
  unfold Casting.process_dataset, bind, Casting.os_makedirs, print,
    Casting.shutil_rmtree, modify, emit.
  cbn [fst snd fs with_fs]. rewrite He.
  cbn [fst snd fs with_fs trace remote push_calls download_calls copy_calls].
  split; [reflexivity|]. rewrite <- app_assoc, drop_app_length.
  split; [reflexivity|]. split; [split; reflexivity|].
  split; [reflexivity|]. split; [reflexivity|]. split.
  - intros p Hp. now apply elem_of_filter in Hp as [H _].
  - intros p Hp Hn. apply elem_of_filter. split; [exact Hn|]. set_solver.
Qed.





(** X17. A pass whose dataset loaded never reaches its cleanup: the
    AttributeError of line 49 leaves process_dataset, the cleanup line is
    not printed, and the two directories made at the start are on disk
    together with everything that was there before. *)
Theorem loaded_pass_skips_cleanup (ds : dataset_dict) (w : world) :
  let r := Casting.process_dataset cwd (inr ds) download_fault copy_fault push_fault w in
  (exists e, fst r = Raises e /\ exn_class e = "AttributeError"%string)
  /\ Stdout (lit "Temporary files cleaned up.") ∉ drop (length (trace w)) (trace (snd r))
  /\ fs w ⊆ fs (snd r)
  /\ resolve REPO_LOCAL_STORAGE ∈ fs (snd r)
  /\ resolve LOCAL_CWD_DATA_DIR ∈ fs (snd r).
Proof using Type.
  cbv zeta. rewrite CastingSpec.process_dataset_loaded. cbn [fst snd].
  split; [exists no_features; split; reflexivity|].
  rewrite CastingSpec.trace_download_start, drop_app_length.
  split.
  { rewrite !elem_of_cons, elem_of_nil. intros [H|[H|[]]]; discriminate H. }
  unfold download_start, load_start, bind, Casting.os_makedirs, print, modify, emit.
  cbn [fst snd fs with_fs].
  split; [set_solver|]. split.
  - apply elem_of_union_l, elem_of_union_r, elem_of_list_to_set, CastingSpec.inits_self.
  - apply elem_of_union_r, elem_of_list_to_set, CastingSpec.inits_self.
Qed.

End Operations.

(** ** Instances *)

Lemma path_key_unique_across_splits_witness :
  lit "train" = lit "train" /\ lit "data/a.flac" = lit "data/a.flac".
Proof.
  apply path_key_unique_across_splits.
  - apply (bool_decide_unpack _). vm_compute. exact I.
  - apply (bool_decide_unpack _). vm_compute. exact I.
  - reflexivity.
Defined.

(* With a slash in a split name the keys of two splits can coincide. *)
Remark path_key_collides_with_slash :
  path_key (lit "a") (lit "b/c") = path_key (lit "a/b") (lit "c").
Proof. reflexivity. Qed.

Lemma process_dataset_keeps_outside_paths_witness :
  [lit "etc"] ∈ fs (snd (process_dataset sample_cwd (inr sample_dataset) no_download_fault
                           no_copy_fault no_push_fault etc_world)).
Proof.
  apply (process_dataset_keeps_outside_paths sample_cwd no_download_fault no_copy_fault
           no_push_fault (inr sample_dataset) etc_world [lit "etc"]).
  - unfold etc_world. cbn [fs]. now apply elem_of_singleton_2.
  - intros [H|H]; revert H; apply (bool_decide_unpack _); vm_compute; exact I.
Defined.

Lemma other_load_error_propagates_witness :
  fst (process_dataset sample_cwd (inl forbidden) no_download_fault no_copy_fault
         no_push_fault empty_world) = Raises forbidden.
Proof.
  exact (proj1 (other_load_error_propagates sample_cwd no_download_fault no_copy_fault
                  no_push_fault forbidden empty_world eq_refl)).
Defined.

Lemma missing_repository_ends_quietly_witness :
  fst (process_dataset sample_cwd (inl not_found) no_download_fault no_copy_fault
         no_push_fault empty_world) = Returns tt.
Proof.
  exact (proj1 (missing_repository_ends_quietly sample_cwd no_download_fault no_copy_fault
                  no_push_fault not_found empty_world eq_refl)).
Defined.





End CastingExtra.
